(** * school_operational_status_generator: a shallow embedding

    The generator reads a roster of schools, groups it by State and then by
    LEA, and prints one JSON template file per State.  This file embeds
    [src/school_operational_status_generator.py]: the format constants, the
    table and its [groupby], the print statements of [main], the output
    directory, and the command-line parser.  The properties of the
    specification are proved at the end. *)

From Stdlib Require Import String Ascii.
From stdpp Require Import gmap strings list sorting.

Local Open Scope string_scope.
Local Open Scope list_scope.

(** ** Text *)

Module Text.

(** The double-quote character.  The templates below are written with an
    apostrophe wherever the Python source has a double quote (the source
    templates hold no apostrophe of their own); [unq] puts the double quotes
    back, so the constants are the source's strings character by character. *)
Definition dquote : ascii := ascii_of_nat 34.
Definition newline : ascii := ascii_of_nat 10.

Fixpoint unq (s : string) : string :=
  match s with
  | EmptyString => EmptyString
  | String c rest =>
      String (if Ascii.eqb c "'"%char then dquote else c) (unq rest)
  end.

(** Python's [fmt % (a, b, ...)] for the directives the program uses: each
    [%s] is replaced by the next argument, [%%] by a percent sign.  The
    program applies every template to exactly as many arguments as it has
    directives ([directives] counts them), which is where [%] cannot raise. *)
Fixpoint pyformat (fmt : string) (args : list string) : string :=
  match fmt with
  | EmptyString => EmptyString
  | String c rest =>
      if Ascii.eqb c "%"%char then
        match rest with
        | String d rest' =>
            if Ascii.eqb d "s"%char then
              match args with
              | a :: args' => a +:+ pyformat rest' args'
              | [] => pyformat rest' []
              end
            else if Ascii.eqb d "%"%char then String d (pyformat rest' args)
            else String c (pyformat rest args)
        | EmptyString => String c EmptyString
        end
      else String c (pyformat rest args)
  end.

Fixpoint directives (fmt : string) : nat :=
  match fmt with
  | EmptyString => 0
  | String c rest =>
      match rest with
      | String d _ =>
          if Ascii.eqb c "%"%char && Ascii.eqb d "s"%char
          then S (directives rest) else directives rest
      | EmptyString => 0
      end
  end.

(** Number of (possibly overlapping) occurrences of [pat] in [s]. *)
Fixpoint occurrences (pat s : string) : nat :=
  match s with
  | EmptyString => 0
  | String _ rest =>
      (if String.prefix pat s then 1 else 0) + occurrences pat rest
  end.

End Text.
Import Text.

(** ** The constants of the source (lines 27-65) *)

Definition LOG_LEVEL : string := "INFO".
Definition CCD_FILE : string := "ccd_sch_sas.csv".
Definition CONFORMANCE_URL : string :=
  "https://data.ed.gov/v1.0/schema/schooloperationalstatus".
Definition SCHEMA_URL : string :=
  "https://data.ed.gov/v1.0/schema/schooloperationalstatus.schema.json".
Definition OUTPUT_DIR : string := ".".

Definition PREFIX_FORMAT : string := Eval vm_compute in unq
"{
'conformsTo': '%s',
'describedBy': '%s',
'reportingPeriodStartDate': '2021-05-10',
'comment': 'For each school, record All if all enrolled students were offered in-person instruction the full week',
'comment': 'record None if no enrolled student was offered in-person instruction any day of the reporting week,',
'comment': 'record Hybrid if the school was in session but the other two responses are not accurate,',
'comment': 'and record Not in session if the school was not in session for the reporting week.',
'lea': [
".

Definition LEA_PREFIX_FORMAT : string := Eval vm_compute in unq
"{'leaID': '%s', 'leaName': '%s', 'openStatus': [
".

Definition LEA_SUFFIX : string :=
"
]}".

Definition SCHOOL_FORMAT : string := Eval vm_compute in unq
"  { 'weeklyInPersonInstruction': 'Not reported', 'schoolID': '%s', 'schoolName': '%s' }".

Definition SEPARATOR : string :=
",
".

Definition SUFFIX : string :=
"
]
}
".

Definition OUTPUT_FILE : string := "school_operational_status.json".

(** ** The table (line 74)

    [pandas.read_csv] keeps the five columns [ST], [LEAID], [LEA_NAME],
    [NCESSCH], [SCH_NAME]; the first, second and fourth become the row
    index.  A row of the table is a roster record; identifiers are opaque
    strings and every cell holds a value. *)

Record row := Row {
  ST : string;
  LEAID : string;
  NCESSCH : string;
  LEA_NAME : string;
  SCH_NAME : string
}.

#[global] Instance row_eq_dec : EqDecision row.
Proof. solve_decision. Defined.

Abbreviation DataFrame := (list row).

(** [df.groupby(level=...)]: one group per distinct key, keys in sorted
    order, each group holding the rows with that key in table order. *)
Definition group_keys (level : row → string) (df : DataFrame) : list string :=
  merge_sort String.le (remove_dups (level <$> df)).

Definition groupby (level : row → string) (df : DataFrame)
  : list (string * DataFrame) :=
  (λ k, (k, filter (λ r, level r = k) df)) <$> group_keys level df.

(** ** What [main] prints

    One [chunk] per [print] call of lines 86-118, with the values it is
    given; [render] is the text the call writes, its [end] included. *)

Inductive chunk :=
| Preamble (conforms_to described_by : string)   (* line 86 *)
| LeaOpen (lea lea_name : string)                (* lines 91, 106 *)
| School (school_id sch_name : string)           (* lines 94, 98, 109, 113 *)
| Sep                                            (* lines 97, 105, 112 *)
| LeaClose                                       (* lines 100, 115 *)
| Closing.                                       (* line 118 *)

#[global] Instance chunk_eq_dec : EqDecision chunk.
Proof. solve_decision. Defined.

Definition render (c : chunk) : string :=
  match c with
  | Preamble conforms_to described_by =>
      pyformat PREFIX_FORMAT [conforms_to; described_by] +:+ String newline EmptyString
  | LeaOpen lea lea_name => pyformat LEA_PREFIX_FORMAT [lea; lea_name]
  | School school_id sch_name => pyformat SCHOOL_FORMAT [school_id; sch_name]
  | Sep => SEPARATOR
  | LeaClose => LEA_SUFFIX
  | Closing => SUFFIX +:+ String newline EmptyString
  end.

(** The text of a file: what its chunks render to, in order. *)
Definition text_of (j : list chunk) : string :=
  foldr (λ c acc, render c +:+ acc) EmptyString j.

(** Exceptions the modelled statements can raise. *)
Inductive exn :=
| StopIteration | IndexError | AttributeError | ReadError
| FileExistsError | NotADirectoryError.

Inductive outcome (A : Type) :=
| Ok (a : A)
| Raise (e : exn).
Arguments Ok {A} a.
Arguments Raise {A} e.

(** Statements that write to the open file [j]: the chunks written so far
    are threaded through, and an exception ends the block. *)
Definition W (A : Type) : Type := list chunk → outcome A * list chunk.

Definition ret {A} (a : A) : W A := λ j, (Ok a, j).

Definition bind {A B} (m : W A) (k : A → W B) : W B :=
  λ j, match m j with
       | (Ok a, j') => k a j'
       | (Raise e, j') => (Raise e, j')
       end.

Definition raise {A} (e : exn) : W A := λ j, (Raise e, j).

Notation "x <- m ;; k" := (bind m (λ x, k))
  (at level 100, m at next level, right associativity).
Notation "m ;;; k" := (bind m (λ _, k))
  (at level 100, right associativity).

(** [print(..., file=j)] *)
Definition print_ (c : chunk) : W unit := λ j, (Ok tt, j ++ [c]).

(** [sch_grp.iloc[i]] (and [sch_grp.index.values[i]], the same position) *)
Definition iloc (sch_grp : DataFrame) (i : nat) : W row :=
  match sch_grp !! i with
  | Some r => ret r
  | None => raise IndexError
  end.

(** [next(lea_iter)]: the iterator is the list of groups still to come. *)
Definition next_ {A} (lea_iter : list A) : W (A * list A) :=
  match lea_iter with
  | g :: lea_iter' => ret (g, lea_iter')
  | [] => raise StopIteration
  end.

Fixpoint for_ {A} (l : list A) (body : A → W unit) : W unit :=
  match l with
  | [] => ret tt
  | a :: l' => body a ;;; for_ l' body
  end.

(** Lines 93-99 (and 108-114): the first school, then, for [schi] from 1
    while [schi < len(sch_grp.index)], a separator and the school at
    [schi]. *)
Definition print_schools (sch_grp : DataFrame) : W unit :=
  r <- iloc sch_grp 0 ;;
  print_ (School (NCESSCH r) (SCH_NAME r)) ;;;
  for_ (seq 1 (length sch_grp - 1)) (λ schi,
    print_ Sep ;;;
    r <- iloc sch_grp schi ;;
    print_ (School (NCESSCH r) (SCH_NAME r))).

(** Lines 91-100 (and 106-115): one LEA object. *)
Definition print_lea (g : string * DataFrame) : W unit :=
  let '(lea, sch_grp) := g in
  r <- iloc sch_grp 0 ;;
  print_ (LeaOpen lea (LEA_NAME r)) ;;;
  print_schools sch_grp ;;;
  print_ LeaClose.

(** Lines 102-117: [while True] around [next(lea_iter)]; the loop ends when
    the iterator is exhausted ([next] raises [StopIteration], which is
    caught and breaks).  Nothing else in the body raises [StopIteration],
    and what the body raises otherwise is not caught. *)
Fixpoint remaining_leas (lea_iter : list (string * DataFrame)) : W unit :=
  match lea_iter with
  | [] => ret tt
  | g :: lea_iter' =>
      print_ Sep ;;;
      print_lea g ;;;
      remaining_leas lea_iter'
  end.

Record Args := {
  ccd_file : string;
  output_dir : string;
  conforms_to : string;
  described_by : string;
  log_level : string
}.

(** Lines 86-118: the body of the [with] block for one State. *)
Definition state_file (args : Args) (lea_grp : DataFrame) : W unit :=
  print_ (Preamble (conforms_to args) (described_by args)) ;;;
  p <- next_ (groupby LEAID lea_grp) ;;
  print_lea (fst p) ;;;
  remaining_leas (snd p) ;;;
  print_ Closing.

(** ** The output directory

    The entries of [args.output_dir], which exists, by name: a file with
    its text, or a directory with the files it holds.  State codes are used
    as entry names. *)

Inductive node :=
| File (content : string)
| Dir (entries : gmap string string).

Abbreviation filesystem := (gmap string node).

(** [opath.mkdir(exist_ok=True)]: creates the directory when the name is
    free, leaves an existing directory alone, and raises when the name is
    taken by a file. *)
Definition mkdir_exist_ok (name : string) (fs : filesystem) : outcome filesystem :=
  match fs !! name with
  | None => Ok (<[name := Dir ∅]> fs)
  | Some (Dir _) => Ok fs
  | Some (File _) => Raise FileExistsError
  end.

(** [with (opath / fname).open(mode='w') as j: body]: the file is created or
    truncated, receives what [body] writes, and is closed also when [body]
    raises. *)
Definition with_open_w (dir fname : string) (body : W unit) (fs : filesystem)
  : outcome unit * filesystem :=
  match fs !! dir with
  | Some (Dir entries) =>
      let '(r, j) := body [] in
      (r, <[dir := Dir (<[fname := text_of j]> entries)]> fs)
  | _ => (Raise NotADirectoryError, fs)
  end.

(** Lines 78-118: one iteration of the loop over States. *)
Definition state_step (args : Args) (g : string * DataFrame) (fs : filesystem)
  : outcome unit * filesystem :=
  let '(state, lea_grp) := g in
  match mkdir_exist_ok state fs with
  | Raise e => (Raise e, fs)
  | Ok fs1 => with_open_w state OUTPUT_FILE (state_file args lea_grp) fs1
  end.

(** Line 77: [for state, lea_grp in ...]; an exception ends the run. *)
Fixpoint for_states (args : Args) (groups : list (string * DataFrame))
    (fs : filesystem) : outcome unit * filesystem :=
  match groups with
  | [] => (Ok tt, fs)
  | g :: groups' =>
      match state_step args g fs with
      | (Ok _, fs') => for_states args groups' fs'
      | (Raise e, fs') => (Raise e, fs')
      end
  end.

(** Line 70: [logging.basicConfig(..., level=getattr(logging, name))].  The
    names that are levels of the [logging] module configure the log; any
    other name is taken to raise.  [main] logs nothing afterwards. *)
Definition logging_levels : list string :=
  ["CRITICAL"; "FATAL"; "ERROR"; "WARNING"; "WARN"; "INFO"; "DEBUG"; "NOTSET"].

Definition basicConfig (level_name : string) : outcome unit :=
  if bool_decide (level_name ∈ logging_levels) then Ok tt
  else Raise AttributeError.

(** [main(args)].  [loaded] is what [pandas.read_csv] makes of the file
    [args.ccd_file] at line 74: the table, or nothing when the file cannot
    be read as a table with the five columns, and [read_csv] raises. *)
Definition main (args : Args) (loaded : option DataFrame) (fs : filesystem)
  : outcome unit * filesystem :=
  match basicConfig (log_level args) with
  | Raise e => (Raise e, fs)
  | Ok _ =>
      match loaded with
      | None => (Raise ReadError, fs)
      | Some sidf => for_states args (groupby ST sidf) fs
      end
  end.

(** ** The command line (lines 65, 121-136) *)

(** [os.getenv(name, default=...)] on the process environment. *)
Definition getenv (env : gmap string string) (name default_ : string) : string :=
  default default_ (env !! name).

(** The [defaults] dictionary after lines 122-126: the constants, overridden
    by the [SOS_*] environment variables. *)
Definition defaults (env : gmap string string) : Args := {|
  ccd_file := getenv env "SOS_CCDFILE" CCD_FILE;
  output_dir := getenv env "SOS_OUTPUTDIR" OUTPUT_DIR;
  conforms_to := getenv env "SOS_CONFORMANCE" CONFORMANCE_URL;
  described_by := getenv env "SOS_SCHEMA" SCHEMA_URL;
  log_level := getenv env "SOS_LOGLEVEL" LOG_LEVEL
|}.

Inductive dest := Dccd_file | Doutput_dir | Dconforms_to | Ddescribed_by | Dlog_level.

(** The five [add_argument] calls of lines 130-134: option string,
    destination, and the allowed values where [choices] is given. *)
Definition arguments : list (string * dest * option (list string)) := [
  ("--ccdfile", Dccd_file, None);
  ("--outputdir", Doutput_dir, None);
  ("--conformance", Dconforms_to, None);
  ("--schema", Ddescribed_by, None);
  ("--loglevel", Dlog_level,
     Some ["DEBUG"; "INFO"; "WARNING"; "ERROR"; "CRITICAL"])
].

Definition setattr (a : Args) (d : dest) (v : string) : Args :=
  match d with
  | Dccd_file =>
      {| ccd_file := v; output_dir := output_dir a; conforms_to := conforms_to a;
         described_by := described_by a; log_level := log_level a |}
  | Doutput_dir =>
      {| ccd_file := ccd_file a; output_dir := v; conforms_to := conforms_to a;
         described_by := described_by a; log_level := log_level a |}
  | Dconforms_to =>
      {| ccd_file := ccd_file a; output_dir := output_dir a; conforms_to := v;
         described_by := described_by a; log_level := log_level a |}
  | Ddescribed_by =>
      {| ccd_file := ccd_file a; output_dir := output_dir a;
         conforms_to := conforms_to a; described_by := v; log_level := log_level a |}
  | Dlog_level =>
      {| ccd_file := ccd_file a; output_dir := output_dir a;
         conforms_to := conforms_to a; described_by := described_by a; log_level := v |}
  end.

(** What [parser.parse_args()] does: a namespace, the usage error that
    exits with status 2, or the help text that exits with status 0. *)
Inductive parsed :=
| Parsed (args : Args)
| UsageError
| HelpExit.

(** [--name=value] is split at the first [=]. *)
Fixpoint split_eq (tok : string) : string * option string :=
  match tok with
  | EmptyString => (EmptyString, None)
  | String c rest =>
      if Ascii.eqb c "="%char then (EmptyString, Some rest)
      else let '(n, v) := split_eq rest in (String c n, v)
  end.

(** An argument string that the parser reads as an option. *)
Definition option_like (tok : string) : bool :=
  match tok with
  | String c (String _ _) => Ascii.eqb c "-"%char
  | _ => false
  end.

(** What an option name on the command line stands for: an option string
    itself, or the only one it is a prefix of ([--help] is among them). *)
Inductive resolved :=
| Opt (d : dest) (choices : option (list string))
| Help
| Ambiguous
| Unknown.

Definition resolve (name : string) : resolved :=
  if bool_decide (name = "-h") || bool_decide (name = "--help") then Help
  else
    match filter (λ a, a.1.1 = name) arguments with
    | (_, d, ch) :: _ => Opt d ch
    | [] =>
        if String.prefix "--" name then
          match filter (λ a, String.prefix name a.1.1 = true) arguments,
                String.prefix name "--help" with
          | [(_, d, ch)], false => Opt d ch
          | [], true => Help
          | [], false => Unknown
          | _, _ => Ambiguous
          end
        else Unknown
    end.

Definition check_value (choices : option (list string)) (v : string) : bool :=
  match choices with
  | None => true
  | Some l => bool_decide (v ∈ l)
  end.

(** The parser has optional arguments only, each taking one value.  An
    argument string that is neither an option nor the value of one is a
    positional argument; the parser has none to give it to, and reports it,
    like an option it does not know, once the command line is read
    ([extras]). *)
Fixpoint parse_from (a : Args) (extras : bool) (argv : list string)
    {struct argv} : parsed :=
  match argv with
  | [] => if extras then UsageError else Parsed a
  | tok :: rest =>
      if bool_decide (tok = "--") then
        match rest with
        | [] => if extras then UsageError else Parsed a
        | _ => UsageError
        end
      else if option_like tok then
        let '(name, explicit) := split_eq tok in
        match resolve name with
        | Help =>
            match explicit with None => HelpExit | Some _ => UsageError end
        | Ambiguous => UsageError
        | Unknown => parse_from a true rest
        | Opt d ch =>
            match explicit with
            | Some v =>
                if check_value ch v then parse_from (setattr a d v) extras rest
                else UsageError
            | None =>
                match rest with
                | v :: rest' =>
                    if option_like v then UsageError
                    else if check_value ch v
                         then parse_from (setattr a d v) extras rest'
                         else UsageError
                | [] => UsageError
                end
            end
        end
      else parse_from a true rest
  end.

Definition parse_args (env : gmap string string) (argv : list string) : parsed :=
  parse_from (defaults env) false argv.

(** The script from line 121 on: parse the command line and call [main];
    [read_csv] gives the table in the file of a path, if there is one. *)
Inductive finished :=
| Exit (status : nat)
| Uncaught (e : exn)
| Done.

Definition script (env : gmap string string) (argv : list string)
    (read_csv : string → option DataFrame) (fs : filesystem)
  : finished * filesystem :=
  match parse_args env argv with
  | UsageError => (Exit 2, fs)
  | HelpExit => (Exit 0, fs)
  | Parsed args =>
      match main args (read_csv (ccd_file args)) fs with
      | (Ok _, fs') => (Done, fs')
      | (Raise e, fs') => (Uncaught e, fs')
      end
  end.

(** ** JSON texts

    The grammar of RFC 8259 as a pushdown recogniser that reads the text one
    character at a time: [mode] says what may come next, the stack holds the
    arrays and objects that are open. *)

Module Json.

Inductive ctx := InArray | InObject.

Inductive mode :=
| ExpValue                  (* a value must start *)
| ExpValueOrEnd             (* just after an opening bracket *)
| ExpKey                    (* after a comma inside an object *)
| ExpKeyOrEnd               (* just after an opening brace *)
| ExpColon                  (* after a member name *)
| AfterValue                (* a value is complete *)
| InString (key : bool)
| InEscape (key : bool)
| InHex (key : bool) (digits : nat)
| NumMinus | NumZero | NumInt | NumDot | NumFrac | NumE | NumESign | NumExp
| InLiteral (rest : string)
| Failed.

Definition state : Type := mode * list ctx.





















End Json.

(** ** Reading the output

    The definitions below describe the files from the outside: what a State
    directory holds, the arrays a printed file lists, and the layout of
    elements and separators that the specification states. *)

(** The text of [school_operational_status.json] in the directory [state]. *)
Definition file_of (fs : filesystem) (state : string) : option string :=
  match fs !! state with
  | Some (Dir entries) => entries !! OUTPUT_FILE
  | _ => None
  end.

(** A file that a run emits: the file of [state] holds [text] after the
    run, and the run created or changed it, or the run ended without an
    exception and [state] is a State code of the input. *)
Definition emitted (args : Args) (sidf : DataFrame) (fs : filesystem)
    (state text : string) : Prop :=
  file_of (main args (Some sidf) fs).2 state = Some text
  ∧ (file_of fs state ≠ Some text
     ∨ ((main args (Some sidf) fs).1 = Ok tt ∧ state ∈ ST <$> sidf)).

(** The chunks that the [with] block of a State writes to its file. *)
Definition state_chunks (args : Args) (lea_grp : DataFrame) : list chunk :=
  (state_file args lea_grp []).2.

(** The school identifiers printed from the start of an [openStatus] array
    up to the chunk that closes it. *)
Fixpoint open_status (j : list chunk) : list string :=
  match j with
  | School school_id _ :: j' => school_id :: open_status j'
  | Sep :: j' => open_status j'
  | _ => []
  end.

(** The [lea] array of a printed file: each LEA identifier with the school
    identifiers of its [openStatus] array. *)
Fixpoint lea_array (j : list chunk) : list (string * list string) :=
  match j with
  | [] => []
  | LeaOpen lea _ :: j' => (lea, open_status j') :: lea_array j'
  | _ :: j' => lea_array j'
  end.

(** The school objects of a printed file. *)
Definition is_school (c : chunk) : bool :=
  match c with School _ _ => true | _ => false end.

Definition is_sep (c : chunk) : bool :=
  match c with Sep => true | _ => false end.

(** Elements with one separator between neighbours and none at the end. *)
Fixpoint join_with {A} (sep : A) (elements : list (list A)) : list A :=
  match elements with
  | [] => []
  | [e] => e
  | e :: rest => e ++ sep :: join_with sep rest
  end.

Definition school_chunk (r : row) : chunk := School (NCESSCH r) (SCH_NAME r).

Definition first_lea_name (sch_grp : DataFrame) : string :=
  default EmptyString (LEA_NAME <$> head sch_grp).

(** One element of the [lea] array: the object of an LEA group. *)
Definition lea_element (g : string * DataFrame) : list chunk :=
  LeaOpen g.1 (first_lea_name g.2)
    :: join_with Sep ((λ r, [school_chunk r]) <$> g.2) ++ [LeaClose].

(** The layout of a State file as the specification states it. *)
Definition state_layout (args : Args) (lea_grp : DataFrame) : list chunk :=
  Preamble (conforms_to args) (described_by args)
    :: join_with Sep (lea_element <$> groupby LEAID lea_grp) ++ [Closing].

(** The same layout on the text: Python's [sep.join(...)] is
    [String.concat]. *)
Definition school_text (r : row) : string :=
  pyformat SCHOOL_FORMAT [NCESSCH r; SCH_NAME r].

Definition lea_text (g : string * DataFrame) : string :=
  pyformat LEA_PREFIX_FORMAT [g.1; first_lea_name g.2]
  +:+ String.concat SEPARATOR (school_text <$> g.2)
  +:+ LEA_SUFFIX.

Definition state_text (args : Args) (lea_grp : DataFrame) : string :=
  pyformat PREFIX_FORMAT [conforms_to args; described_by args]
  +:+ String newline EmptyString
  +:+ String.concat SEPARATOR (lea_text <$> groupby LEAID lea_grp)
  +:+ SUFFIX +:+ String newline EmptyString.

(** The literal pieces of a template, between its [%s] directives. *)
Fixpoint pieces (fmt : string) : list string :=
  match fmt with
  | EmptyString => [EmptyString]
  | String c rest =>
      match rest with
      | String d rest' =>
          if Ascii.eqb c "%"%char && Ascii.eqb d "s"%char
          then EmptyString :: pieces rest'
          else match pieces rest with
               | p :: ps => String c p :: ps
               | [] => [String c EmptyString]
               end
      | EmptyString => [String c EmptyString]
      end
  end.

Definition piece (fmt : string) (i : nat) : string := default EmptyString (pieces fmt !! i).

Definition PREFIX_0 : string := Eval vm_compute in piece PREFIX_FORMAT 0.
Definition PREFIX_1 : string := Eval vm_compute in piece PREFIX_FORMAT 1.
Definition PREFIX_2 : string := Eval vm_compute in piece PREFIX_FORMAT 2.

(** A member of the preamble object as the template writes it: name and
    value between double quotes, a colon and a space between them, a comma
    and a line break after. *)
Definition quoted (s : string) : string :=
  String dquote s +:+ String dquote EmptyString.

Definition member (name value : string) : string :=
  quoted name +:+ ": " +:+ quoted value +:+ SEPARATOR.

(** The members of the preamble, in order, as the specification lists
    them. *)
Definition preamble_members (conforms_to described_by : string)
  : list (string * string) := [
  ("conformsTo", conforms_to);
  ("describedBy", described_by);
  ("reportingPeriodStartDate", "2021-05-10");
  ("comment", "For each school, record All if all enrolled students were offered in-person instruction the full week");
  ("comment", "record None if no enrolled student was offered in-person instruction any day of the reporting week,");
  ("comment", "record Hybrid if the school was in session but the other two responses are not accurate,");
  ("comment", "and record Not in session if the school was not in session for the reporting week.")
].

Definition preamble_text (conforms_to described_by : string) : string :=
  String "{" (String newline EmptyString)
  +:+ foldr (λ m acc, member m.1 m.2 +:+ acc)
        (quoted "lea" +:+ ": [" +:+ String newline EmptyString)
        (preamble_members conforms_to described_by).

(** The school object that [SCHOOL_FORMAT] writes, member by member. *)
Definition school_object (school_id sch_name : string) : string :=
  "  { " +:+ quoted "weeklyInPersonInstruction" +:+ ": " +:+ quoted "Not reported"
  +:+ ", " +:+ quoted "schoolID" +:+ ": " +:+ quoted school_id
  +:+ ", " +:+ quoted "schoolName" +:+ ": " +:+ quoted sch_name +:+ " }".

(** The run over the States as a function of the directory it starts from:
    the loop reaches the State groups up to the first name that a file has
    taken, and each State it reaches gets its file stored. *)
Definition is_file (n : option node) : bool :=
  match n with Some (File _) => true | _ => false end.

Definition entries_of (n : option node) : gmap string string :=
  match n with Some (Dir entries) => entries | _ => ∅ end.

Fixpoint reached (fs : filesystem) (groups : list (string * DataFrame))
  : list (string * DataFrame) :=
  match groups with
  | [] => []
  | g :: groups' => if is_file (fs !! g.1) then [] else g :: reached fs groups'
  end.

Definition store (args : Args) (g : string * DataFrame) (fs : filesystem)
  : filesystem :=
  <[g.1 := Dir (<[OUTPUT_FILE := text_of (state_layout args g.2)]>
                  (entries_of (fs !! g.1)))]> fs.

Definition store_all (args : Args) (groups : list (string * DataFrame))
    (fs : filesystem) : filesystem :=
  foldl (λ fs g, store args g fs) fs groups.

Definition result_of (fs : filesystem) (groups : list (string * DataFrame))
  : outcome unit :=
  if bool_decide (reached fs groups = groups) then Ok tt
  else Raise FileExistsError.


(** A State file seen as the two URLs in their places and the rest of the
    text: [PREFIX_0] runs up to the opening quote of the [conformsTo] value,
    [PREFIX_1] from its closing quote to the opening quote of the
    [describedBy] value. *)
Definition url_frame (conforms_to described_by rest : string) : string :=
  PREFIX_0 +:+ conforms_to +:+ PREFIX_1 +:+ described_by +:+ rest.

(** What follows the [describedBy] value in the file of a State group. *)
Definition state_rest (lea_grp : DataFrame) : string :=
  PREFIX_2 +:+ String newline EmptyString
  +:+ String.concat SEPARATOR (lea_text <$> groupby LEAID lea_grp)
  +:+ SUFFIX +:+ String newline EmptyString.


(** Where a reader of the chunks of a State file stands.  [advance] accepts
    a chunk only where the layout of the specification has it: elements of
    an array follow its opening or one separator, a separator follows an
    element, an array closes after an element. *)
Inductive position :=
| AtStart | LeaArrayOpen | SchoolsOpen | AfterSchool | SchoolDue
| AfterLea | LeaDue | AtEnd | Misplaced.

#[global] Instance position_eq_dec : EqDecision position.
Proof. solve_decision. Defined.

Definition advance (p : position) (c : chunk) : position :=
  match p, c with
  | AtStart, Preamble _ _ => LeaArrayOpen
  | LeaArrayOpen, LeaOpen _ _ => SchoolsOpen
  | LeaDue, LeaOpen _ _ => SchoolsOpen
  | SchoolsOpen, School _ _ => AfterSchool
  | SchoolDue, School _ _ => AfterSchool
  | AfterSchool, Sep => SchoolDue
  | AfterSchool, LeaClose => AfterLea
  | AfterLea, Sep => LeaDue
  | AfterLea, Closing => AtEnd
  | _, _ => Misplaced
  end.

Definition well_separated (j : list chunk) : bool :=
  bool_decide (foldl advance AtStart j = AtEnd).

(** ** Further readings of the output *)


(** The LEA objects of a printed file: identifier and name, in order. *)
Fixpoint lea_names (j : list chunk) : list (string * string) :=
  match j with
  | [] => []
  | LeaOpen lea lea_name :: j' => (lea, lea_name) :: lea_names j'
  | _ :: j' => lea_names j'
  end.


(** The rows of a State, and of an LEA of a State, in table order. *)
Definition rows_of_state (state : string) (sidf : DataFrame) : DataFrame :=
  filter (λ r, ST r = state) sidf.

Definition rows_of_lea (state lea : string) (sidf : DataFrame) : DataFrame :=
  filter (λ r, ST r = state ∧ LEAID r = lea) sidf.

(** * Properties *)

(** ** Strings and templates *)

Lemma string_app_assoc (a b c : string) : (a +:+ b) +:+ c = a +:+ (b +:+ c).
Proof.
  induction a as [|x a IH]; [reflexivity|].
  change (String x ((a +:+ b) +:+ c) = String x (a +:+ (b +:+ c))).
  by rewrite IH.
Qed.

Lemma string_app_nil_r (a : string) : a +:+ EmptyString = a.
Proof.
  induction a as [|x a IH]; [reflexivity|].
  change (String x (a +:+ EmptyString) = String x a). by rewrite IH.
Qed.

Lemma text_of_app (j1 j2 : list chunk) :
  text_of (j1 ++ j2) = text_of j1 +:+ text_of j2.
Proof.
  induction j1 as [|c j1 IH]; [reflexivity|].
  change (render c +:+ text_of (j1 ++ j2) = (render c +:+ text_of j1) +:+ text_of j2).
  by rewrite IH, string_app_assoc.
Qed.

Lemma text_of_cons (c : chunk) (j : list chunk) :
  text_of (c :: j) = render c +:+ text_of j.
Proof. reflexivity. Qed.

(** Every template is applied to as many arguments as it has directives. *)
Lemma templates_arity :
  directives PREFIX_FORMAT = 2 ∧ directives LEA_PREFIX_FORMAT = 2
  ∧ directives SCHOOL_FORMAT = 2.
Proof. repeat split; reflexivity. Qed.

Lemma PREFIX_FORMAT_pieces (c d : string) :
  pyformat PREFIX_FORMAT [c; d] = PREFIX_0 +:+ c +:+ PREFIX_1 +:+ d +:+ PREFIX_2.
Proof. reflexivity. Qed.



(** ** Grouping *)

Section GroupBy.
Variable level : row → string.

Lemma group_keys_perm (df : DataFrame) :
  group_keys level df ≡ₚ remove_dups (level <$> df).
Proof. apply merge_sort_Permutation. Qed.

Lemma NoDup_group_keys (df : DataFrame) : NoDup (group_keys level df).
Proof. rewrite group_keys_perm. apply NoDup_remove_dups. Qed.

Lemma elem_of_group_keys (df : DataFrame) (k : string) :
  k ∈ group_keys level df ↔ k ∈ level <$> df.
Proof. rewrite group_keys_perm. apply elem_of_remove_dups. Qed.

Lemma groupby_keys (df : DataFrame) :
  (groupby level df).*1 = group_keys level df.
Proof.
  unfold groupby. rewrite <- list_fmap_compose.
  induction (group_keys level df) as [|k ks IH]; [done|].
  cbn. by rewrite IH.
Qed.

Lemma elem_of_groupby (df : DataFrame) (k : string) (g : DataFrame) :
  (k, g) ∈ groupby level df
  ↔ k ∈ level <$> df ∧ g = filter (λ r, level r = k) df.
Proof.
  unfold groupby. rewrite list_elem_of_fmap. split.
  - intros (k' & [= -> ->] & Hk). by rewrite <- elem_of_group_keys.
  - intros [Hk ->]. exists k. by rewrite elem_of_group_keys.
Qed.

(** A group holds at least one row. *)
Lemma groupby_nonempty (df : DataFrame) (k : string) (g : DataFrame) :
  (k, g) ∈ groupby level df → g ≠ [].
Proof.
  rewrite elem_of_groupby. intros [Hk ->] Hnil.
  apply list_elem_of_fmap in Hk as (r & -> & Hr).
  assert (r ∈ filter (λ r', level r' = level r) df) as Hin
    by (apply list_elem_of_filter; done).
  rewrite Hnil in Hin. by apply not_elem_of_nil in Hin.
Qed.

(** A table with a row has a group. *)
Lemma groupby_nil (df : DataFrame) : groupby level df = [] → df = [].
Proof.
  intros Hnil. destruct df as [|r df]; [done|].
  assert (level r ∈ group_keys level (r :: df)) as Hin
    by (apply elem_of_group_keys; set_solver).
  rewrite <- groupby_keys, Hnil in Hin. by apply not_elem_of_nil in Hin.
Qed.

Lemma groupby_rows (df : DataFrame) (k : string) (g : DataFrame) (r : row) :
  (k, g) ∈ groupby level df → r ∈ g ↔ r ∈ df ∧ level r = k.
Proof.
  rewrite elem_of_groupby. intros [_ ->]. rewrite list_elem_of_filter. tauto.
Qed.
End GroupBy.

(** ** What the [with] block prints *)

Lemma join_with_cons {A} (sep : A) (e : list A) (rest : list (list A)) :
  join_with sep (e :: rest) = e ++ (rest ≫= λ e', sep :: e').
Proof.
  revert e. induction rest as [|e' rest IH]; intros e.
  - cbn. by rewrite app_nil_r.
  - change (e ++ sep :: join_with sep (e' :: rest)
            = e ++ (sep :: e') ++ (rest ≫= λ e', sep :: e')).
    by rewrite IH.
Qed.

Lemma bind_ok {A B} (m : W A) (k : A → W B) (j j' : list chunk) (a : A) :
  m j = (Ok a, j') → bind m k j = k a j'.
Proof. unfold bind. by intros ->. Qed.

Lemma iloc_middle (pre suf : DataFrame) (r : row) (j : list chunk) :
  iloc (pre ++ r :: suf) (length pre) j = (Ok r, j).
Proof. unfold iloc. by rewrite list_lookup_middle. Qed.

(** The loop over [schi]: the rows before [schi] are [pre], the rows still
    to print are [suf]. *)
Lemma school_loop (pre suf : DataFrame) (j : list chunk) :
  for_ (seq (length pre) (length suf)) (λ schi,
    print_ Sep ;;;
    r <- iloc (pre ++ suf) schi ;;
    print_ (School (NCESSCH r) (SCH_NAME r))) j
  = (Ok tt, j ++ (suf ≫= λ r, [Sep; school_chunk r])).
Proof.
  revert pre j. induction suf as [|r suf IH]; intros pre j.
  - cbn. by rewrite app_nil_r.
  - cbn [length seq for_].
    rewrite (bind_ok _ _ j (j ++ [Sep; school_chunk r]) tt).
    + replace (pre ++ r :: suf) with ((pre ++ [r]) ++ suf)
        by (by rewrite <- app_assoc).
      replace (S (length pre)) with (length (pre ++ [r]))
        by (rewrite length_app; cbn; lia).
      rewrite IH. cbn. by rewrite <- app_assoc.
    + unfold bind at 1. unfold print_ at 1.
      unfold bind. rewrite iloc_middle. unfold print_.
      by rewrite <- app_assoc.
Qed.

Lemma print_schools_cons (r : row) (suf : DataFrame) (j : list chunk) :
  print_schools (r :: suf) j
  = (Ok tt, j ++ join_with Sep ((λ r, [school_chunk r]) <$> (r :: suf))).
Proof.
  unfold print_schools. unfold bind at 1. unfold iloc at 1. cbn [lookup list_lookup ret].
  unfold bind at 1. unfold print_ at 1.
  replace (length (r :: suf) - 1) with (length suf) by (cbn; lia).
  rewrite (school_loop [r] suf).
  rewrite fmap_cons, join_with_cons, <- app_assoc. do 2 f_equal.
  cbn. f_equal. induction suf as [|r' suf IH]; [done|]. cbn. by rewrite IH.
Qed.

Lemma print_lea_nonempty (g : string * DataFrame) (j : list chunk) :
  g.2 ≠ [] → print_lea g j = (Ok tt, j ++ lea_element g).
Proof.
  destruct g as [lea [|r suf]]; [done|]. intros _.
  unfold print_lea. unfold bind at 1. unfold iloc at 1. cbn [lookup list_lookup ret].
  unfold bind at 1. unfold print_ at 1.
  unfold bind at 1. rewrite print_schools_cons. unfold print_.
  unfold lea_element. cbn [fst snd first_lea_name head fmap option_fmap option_map default].
  by rewrite <- !app_assoc.
Qed.

Lemma remaining_leas_nonempty (lea_iter : list (string * DataFrame))
    (j : list chunk) :
  Forall (λ g, g.2 ≠ []) lea_iter →
  remaining_leas lea_iter j = (Ok tt, j ++ (lea_iter ≫= λ g, Sep :: lea_element g)).
Proof.
  intros Hall. revert j. induction Hall as [|g lea_iter Hg _ IH]; intros j.
  - cbn. by rewrite app_nil_r.
  - cbn [remaining_leas]. unfold bind at 1. unfold print_ at 1.
    unfold bind at 1. rewrite print_lea_nonempty by done.
    rewrite IH, bind_cons. f_equal. by rewrite <- !app_assoc.
Qed.

Lemma groupby_all_nonempty (level : row → string) (df : DataFrame) :
  Forall (λ g, g.2 ≠ []) (groupby level df).
Proof.
  apply Forall_forall. intros [k g] Hin. by eapply groupby_nonempty.
Qed.

(** The [with] block of a State group with at least one row ends without an
    exception and prints the layout of the specification. *)
Lemma state_file_layout (args : Args) (lea_grp : DataFrame) :
  lea_grp ≠ [] → state_file args lea_grp [] = (Ok tt, state_layout args lea_grp).
Proof.
  intros Hne. unfold state_file, state_layout.
  pose proof (groupby_all_nonempty LEAID lea_grp) as Hall.
  destruct (groupby LEAID lea_grp) as [|g lea_iter] eqn:Hg.
  { by apply groupby_nil in Hg. }
  apply Forall_cons in Hall as [Hg1 Hall].
  unfold bind at 1. unfold print_ at 1. cbn [next_ app].
  unfold bind at 1. unfold ret at 1. cbn [fst snd].
  unfold bind at 1. rewrite print_lea_nonempty by done.
  unfold bind at 1. rewrite remaining_leas_nonempty by done.
  unfold print_. rewrite fmap_cons, join_with_cons.
  cbn [app]. do 2 f_equal. rewrite <- !app_assoc. do 2 f_equal.
  clear. induction lea_iter as [|g lea_iter IH]; [done|].
  cbn. by rewrite IH.
Qed.

Lemma state_chunks_layout (args : Args) (lea_grp : DataFrame) :
  lea_grp ≠ [] → state_chunks args lea_grp = state_layout args lea_grp.
Proof. intros H. unfold state_chunks. by rewrite state_file_layout. Qed.

(** ** The run over the States *)

Lemma state_step_store (args : Args) (g : string * DataFrame) (fs : filesystem) :
  g.2 ≠ [] →
  state_step args g fs
  = if is_file (fs !! g.1) then (Raise FileExistsError, fs)
    else (Ok tt, store args g fs).
Proof.
  destruct g as [state lea_grp]. cbn [fst snd]. intros Hne.
  unfold state_step, mkdir_exist_ok, store. cbn [fst snd].
  destruct (fs !! state) as [[content|entries]|] eqn:Hfs; cbn [is_file entries_of].
  - done.
  - unfold with_open_w. rewrite Hfs, state_file_layout by done. done.
  - unfold with_open_w. rewrite lookup_insert_eq, state_file_layout by done.
    by rewrite insert_insert_eq.
Qed.

Lemma store_lookup_ne (args : Args) (g : string * DataFrame) (fs : filesystem)
    (k : string) :
  k ≠ g.1 → store args g fs !! k = fs !! k.
Proof. intros Hne. unfold store. by rewrite lookup_insert_ne. Qed.

Lemma reached_ext (fs1 fs2 : filesystem) (groups : list (string * DataFrame)) :
  (∀ k, k ∈ groups.*1 → fs1 !! k = fs2 !! k) →
  reached fs1 groups = reached fs2 groups.
Proof.
  induction groups as [|g groups IH]; intros Hagree; [done|].
  cbn [reached]. rewrite (Hagree g.1) by set_solver.
  destruct (is_file (fs2 !! g.1)); [done|].
  f_equal. apply IH. intros k Hk. apply Hagree.
  rewrite fmap_cons. apply elem_of_cons. by right.
Qed.

Lemma reached_prefix (fs : filesystem) (groups : list (string * DataFrame)) :
  ∃ rest, groups = reached fs groups ++ rest.
Proof.
  induction groups as [|g groups [rest IH]]; [by exists []|].
  cbn [reached]. destruct (is_file (fs !! g.1)).
  - by exists (g :: groups).
  - exists rest. cbn. by rewrite <- IH.
Qed.

Lemma reached_not_file (fs : filesystem) (groups : list (string * DataFrame))
    (g : string * DataFrame) :
  g ∈ reached fs groups → is_file (fs !! g.1) = false.
Proof.
  induction groups as [|g' groups IH]; cbn [reached]; [by intros ?%not_elem_of_nil|].
  destruct (is_file (fs !! g'.1)) eqn:Hf; [by intros ?%not_elem_of_nil|].
  intros [->|Hin]%elem_of_cons; auto.
Qed.

Lemma reached_all (groups : list (string * DataFrame)) (fs : filesystem) :
  (∀ g, g ∈ groups → is_file (fs !! g.1) = false) → reached fs groups = groups.
Proof.
  induction groups as [|g groups IH]; intros Hfree; [done|].
  cbn [reached]. rewrite Hfree by set_solver. f_equal. apply IH.
  intros g' Hg'. apply Hfree. set_solver.
Qed.

(** The loop over the States computes [store_all] over the States it
    reaches. *)
Lemma for_states_store_all (args : Args) (groups : list (string * DataFrame))
    (fs : filesystem) :
  NoDup groups.*1 → Forall (λ g, g.2 ≠ []) groups →
  for_states args groups fs
  = (result_of fs groups, store_all args (reached fs groups) fs).
Proof.
  intros Hnd Hall. revert fs Hnd.
  induction Hall as [|g groups Hg _ IH]; intros fs Hnd; [done|].
  apply NoDup_cons in Hnd as [Hfresh Hnd].
  cbn [for_states reached]. rewrite state_step_store by done.
  unfold result_of. cbn [reached].
  destruct (is_file (fs !! g.1)) eqn:Hf.
  - by rewrite bool_decide_eq_false_2.
  - assert (reached (store args g fs) groups = reached fs groups) as Hr.
    { apply reached_ext. intros k Hk. apply store_lookup_ne. by intros ->. }
    rewrite IH by done. unfold result_of. rewrite Hr.
    cbn [store_all foldl]. f_equal.
    destruct (decide (reached fs groups = groups)) as [Heq|Hne].
    + by rewrite !bool_decide_eq_true_2 by congruence.
    + by rewrite !bool_decide_eq_false_2 by congruence.
Qed.

Lemma store_all_lookup_notin (args : Args) (groups : list (string * DataFrame))
    (fs : filesystem) (k : string) :
  k ∉ groups.*1 → store_all args groups fs !! k = fs !! k.
Proof.
  revert fs. induction groups as [|g groups IH]; intros fs Hk; [done|].
  cbn [store_all foldl]. fold (store_all args groups (store args g fs)).
  rewrite fmap_cons, not_elem_of_cons in Hk. destruct Hk as [Hk1 Hk2].
  rewrite IH by done. by apply store_lookup_ne.
Qed.

Lemma store_all_lookup_in (args : Args) (groups : list (string * DataFrame))
    (fs : filesystem) (g : string * DataFrame) :
  NoDup groups.*1 → g ∈ groups →
  store_all args groups fs !! g.1
  = Some (Dir (<[OUTPUT_FILE := text_of (state_layout args g.2)]>
                 (entries_of (fs !! g.1)))).
Proof.
  revert fs. induction groups as [|g' groups IH]; intros fs Hnd Hin.
  { by apply not_elem_of_nil in Hin. }
  apply NoDup_cons in Hnd as [Hfresh Hnd].
  cbn [store_all foldl]. fold (store_all args groups (store args g' fs)).
  apply elem_of_cons in Hin as [->|Hin].
  - rewrite store_all_lookup_notin by done. unfold store. apply lookup_insert_eq.
  - rewrite IH by done. rewrite store_lookup_ne; [done|].
    intros Heq. apply Hfresh. rewrite <- Heq. by apply list_elem_of_fmap_2.
Qed.

Lemma NoDup_groupby_keys (level : row → string) (df : DataFrame) :
  NoDup (groupby level df).*1.
Proof. rewrite groupby_keys. apply NoDup_group_keys. Qed.

Lemma basicConfig_cases (level_name : string) :
  basicConfig level_name = Ok tt ∨ basicConfig level_name = Raise AttributeError.
Proof. unfold basicConfig. case_bool_decide; auto. Qed.

Lemma main_store_all (args : Args) (sidf : DataFrame) (fs : filesystem) :
  basicConfig (log_level args) = Ok tt →
  main args (Some sidf) fs
  = (result_of fs (groupby ST sidf),
     store_all args (reached fs (groupby ST sidf)) fs).
Proof.
  intros Hlevel. unfold main. rewrite Hlevel.
  apply for_states_store_all;
    [apply NoDup_groupby_keys | apply groupby_all_nonempty].
Qed.

Lemma main_bad_level (args : Args) (sidf : DataFrame) (fs : filesystem) :
  basicConfig (log_level args) = Raise AttributeError →
  main args (Some sidf) fs = (Raise AttributeError, fs).
Proof. intros Hlevel. unfold main. by rewrite Hlevel. Qed.

Lemma NoDup_reached (fs : filesystem) (groups : list (string * DataFrame)) :
  NoDup groups.*1 → NoDup (reached fs groups).*1.
Proof.
  intros Hnd. destruct (reached_prefix fs groups) as [rest Heq].
  rewrite Heq, fmap_app in Hnd. by apply NoDup_app in Hnd as [? _].
Qed.

Lemma reached_subseteq (fs : filesystem) (groups : list (string * DataFrame)) :
  reached fs groups ⊆ groups.
Proof.
  destruct (reached_prefix fs groups) as [rest Heq].
  intros g Hg. rewrite Heq. set_solver.
Qed.

Lemma main_ok_reached (args : Args) (sidf : DataFrame) (fs : filesystem) :
  (main args (Some sidf) fs).1 = Ok tt → reached fs (groupby ST sidf) = groupby ST sidf.
Proof.
  destruct (basicConfig_cases (log_level args)) as [Hlevel | Hlevel];
    [|by rewrite main_bad_level].
  rewrite main_store_all by done. cbn [fst]. unfold result_of.
  by case_bool_decide.
Qed.

(** A file that a run emits is the file of one of the State groups, with
    the layout of that group as its text. *)
Lemma main_emitted (args : Args) (sidf : DataFrame) (fs : filesystem)
    (state text : string) :
  emitted args sidf fs state text →
  ∃ lea_grp, (state, lea_grp) ∈ groupby ST sidf
    ∧ lea_grp ≠ []
    ∧ state_file args lea_grp [] = (Ok tt, state_layout args lea_grp)
    ∧ text = text_of (state_layout args lea_grp).
Proof.
  intros [Hnew Hwhy].
  destruct (basicConfig_cases (log_level args)) as [Hlevel | Hlevel].
  2: { rewrite main_bad_level in Hnew, Hwhy by done.
       by destruct Hwhy as [? | [? _]]. }
  assert (∀ lea_grp, (state, lea_grp) ∈ reached fs (groupby ST sidf) →
            (state, lea_grp) ∈ groupby ST sidf
            ∧ lea_grp ≠ []
            ∧ state_file args lea_grp [] = (Ok tt, state_layout args lea_grp)
            ∧ text = text_of (state_layout args lea_grp)) as Hreached.
  { intros lea_grp Hin.
    assert ((state, lea_grp) ∈ groupby ST sidf) as Hg
      by (by eapply reached_subseteq).
    assert (lea_grp ≠ []) as Hne by (by eapply groupby_nonempty).
    split; [done|]. split; [done|]. split; [by apply state_file_layout|].
    rewrite main_store_all in Hnew by done. unfold file_of in Hnew.
    cbn [snd] in Hnew.
    rewrite (store_all_lookup_in args _ fs (state, lea_grp)) in Hnew;
      [|by apply NoDup_reached, NoDup_groupby_keys|done].
    cbn [fst snd] in Hnew. rewrite lookup_insert_eq in Hnew. congruence. }
  destruct Hwhy as [Hold | [Hok Hs]].
  - destruct (decide (state ∈ (reached fs (groupby ST sidf)).*1)) as [Hin|Hnotin].
    + apply list_elem_of_fmap in Hin as ([state' lea_grp] & Heq & Hin).
      cbn [fst] in Heq. subst state'. exists lea_grp. by apply Hreached.
    + rewrite main_store_all in Hnew by done. unfold file_of in Hnew, Hold.
      cbn [snd] in Hnew. rewrite store_all_lookup_notin in Hnew by done. done.
  - apply main_ok_reached in Hok.
    apply elem_of_group_keys in Hs. rewrite <- groupby_keys in Hs.
    apply list_elem_of_fmap in Hs as ([state' lea_grp] & Heq & Hin).
    cbn [fst] in Heq. subst state'. exists lea_grp.
    apply Hreached. by rewrite Hok.
Qed.

Lemma main_empty_file (args : Args) (sidf : DataFrame) (state : string)
    (lea_grp : DataFrame) :
  basicConfig (log_level args) = Ok tt →
  (state, lea_grp) ∈ groupby ST sidf →
  main args (Some sidf) ∅
  = (Ok tt, store_all args (groupby ST sidf) ∅)
  ∧ (main args (Some sidf) ∅).2 !! state
    = Some (Dir {[OUTPUT_FILE := text_of (state_chunks args lea_grp)]})
  ∧ file_of (main args (Some sidf) ∅).2 state = Some (text_of (state_chunks args lea_grp)).
Proof.
  intros Hlevel Hin. rewrite main_store_all by done. unfold result_of.
  rewrite reached_all by (intros; by rewrite lookup_empty).
  rewrite bool_decide_eq_true_2 by done. split; [done|].
  cbn [snd]. unfold file_of.
  rewrite (store_all_lookup_in args _ ∅ (state, lea_grp))
    by (done || apply NoDup_groupby_keys).
  cbn [fst snd]. rewrite lookup_empty. cbn [entries_of].
  rewrite state_chunks_layout by (by eapply groupby_nonempty).
  split; [done|]. apply lookup_insert_eq.
Qed.

(** ** Reading the arrays back *)





Lemma filter_filter_rows (sidf : DataFrame) (state lea : string) :
  filter (λ r, LEAID r = lea) (filter (λ r, ST r = state) sidf)
  = filter (λ r, ST r = state ∧ LEAID r = lea) sidf.
Proof.
  induction sidf as [|r sidf IH]; [done|].
  rewrite (filter_cons (λ r, ST r = state)), (filter_cons (λ r, ST r = state ∧ LEAID r = lea)).
  destruct (decide (ST r = state)) as [Hs|Hs].
  - rewrite (filter_cons (λ r, LEAID r = lea)).
    destruct (decide (LEAID r = lea)) as [Hl|Hl].
    + rewrite decide_True by done. by rewrite IH.
    + rewrite decide_False by tauto. done.
  - rewrite decide_False by tauto. done.
Qed.

(** ** The arrays of a State file (C10, C1) *)




(** The two rows of the specification's example: one LEA object with two
    school objects, one separator between them and none after. *)
Example two_schools_of_one_lea :
  let sidf := [Row "VA" "001" "001001" "Acme LEA" "Acme Elementary";
               Row "VA" "001" "001002" "Acme LEA" "Acme Middle"] in
  state_chunks (defaults ∅) sidf
  = [Preamble CONFORMANCE_URL SCHEMA_URL;
     LeaOpen "001" "Acme LEA";
     School "001001" "Acme Elementary"; Sep; School "001002" "Acme Middle";
     LeaClose; Closing]
  ∧ lea_array (state_chunks (defaults ∅) sidf) = [("001", ["001001"; "001002"])].
Proof. split; vm_compute; reflexivity. Qed.




(** ** Separators (C2) *)

Lemma concat_cons (sep x : string) (xs : list string) :
  String.concat sep (x :: xs) = x +:+ foldr (λ y acc, sep +:+ y +:+ acc) EmptyString xs.
Proof.
  revert x. induction xs as [|y xs IH]; intros x.
  - cbn. by rewrite string_app_nil_r.
  - change (x +:+ sep +:+ String.concat sep (y :: xs)
            = x +:+ sep +:+ y +:+ foldr (λ y acc, sep +:+ y +:+ acc) EmptyString xs).
    by rewrite IH.
Qed.

(** Joining chunks with [Sep] renders to joining their texts with
    [SEPARATOR]. *)
Lemma text_of_join {A} (f : A → list chunk) (t : A → string) (l : list A) :
  (∀ a, text_of (f a) = t a) →
  text_of (join_with Sep (f <$> l)) = String.concat SEPARATOR (t <$> l).
Proof.
  intros Hft. destruct l as [|a l]; [done|].
  rewrite !fmap_cons, join_with_cons, concat_cons, text_of_app, Hft. f_equal.
  induction l as [|b l IH]; [done|].
  rewrite !fmap_cons, bind_cons. cbn [foldr].
  rewrite text_of_app, text_of_cons, Hft, IH.
  by rewrite string_app_assoc.
Qed.

Lemma text_of_lea_element (g : string * DataFrame) :
  text_of (lea_element g) = lea_text g.
Proof.
  unfold lea_element, lea_text.
  rewrite text_of_cons, text_of_app.
  rewrite (text_of_join (λ r, [school_chunk r]) school_text).
  - cbn [text_of foldr render]. by rewrite string_app_nil_r.
  - intros r. cbn. by rewrite string_app_nil_r.
Qed.

Lemma text_of_state_layout (args : Args) (lea_grp : DataFrame) :
  text_of (state_layout args lea_grp) = state_text args lea_grp.
Proof.
  unfold state_layout, state_text.
  rewrite text_of_cons, text_of_app.
  rewrite (text_of_join lea_element lea_text) by apply text_of_lea_element.
  cbn [text_of foldr render].
  by rewrite !string_app_assoc, string_app_nil_r.
Qed.

Lemma advance_schools (sch_grp : DataFrame) :
  sch_grp ≠ [] →
  foldl advance SchoolsOpen (join_with Sep ((λ r, [school_chunk r]) <$> sch_grp))
  = AfterSchool.
Proof.
  destruct sch_grp as [|r suf]; [done|]. intros _.
  rewrite fmap_cons, join_with_cons, foldl_app. cbn [foldl advance school_chunk].
  induction suf as [|r' suf IH]; [done|].
  rewrite fmap_cons, bind_cons, foldl_app. by cbn [foldl advance school_chunk].
Qed.

Lemma advance_lea_element (p : position) (g : string * DataFrame) :
  p = LeaArrayOpen ∨ p = LeaDue → g.2 ≠ [] →
  foldl advance p (lea_element g) = AfterLea.
Proof.
  intros Hp Hne. unfold lea_element. cbn [foldl].
  assert (advance p (LeaOpen g.1 (first_lea_name g.2)) = SchoolsOpen) as ->
    by (by destruct Hp as [-> | ->]).
  by rewrite foldl_app, advance_schools.
Qed.

Lemma advance_lea_elements (groups : list (string * DataFrame)) :
  groups ≠ [] → Forall (λ g, g.2 ≠ []) groups →
  foldl advance LeaArrayOpen (join_with Sep (lea_element <$> groups)) = AfterLea.
Proof.
  destruct groups as [|g groups]; [done|]. intros _ [Hg Hall]%Forall_cons.
  rewrite fmap_cons, join_with_cons, foldl_app.
  rewrite advance_lea_element by (done || by left).
  induction Hall as [|g' groups Hg' _ IH]; [done|].
  rewrite fmap_cons, bind_cons, foldl_app. cbn [app foldl advance].
  rewrite advance_lea_element by (done || by right). apply IH.
Qed.

Lemma state_layout_well_separated (args : Args) (lea_grp : DataFrame) :
  lea_grp ≠ [] → well_separated (state_layout args lea_grp) = true.
Proof.
  intros Hne. unfold well_separated, state_layout. apply bool_decide_eq_true_2.
  cbn [foldl advance]. rewrite foldl_app, advance_lea_elements.
  - done.
  - intros Hnil. by apply groupby_nil in Hnil.
  - apply groupby_all_nonempty.
Qed.

(** C2: the [with] block of every State prints the preamble, the LEA
    objects with one separator between neighbours and none after the last,
    in each of them the school objects with one separator between
    neighbours and none after the last, and the closing text; the file
    holds the corresponding text, joined with [SEPARATOR].  For a State
    with a single LEA of a single school, no separator is printed and the
    [openStatus] array has exactly one element.  (The file is the one a run
    with an accepted log level leaves in an empty output directory.) *)
Theorem separators_only_between_elements (args : Args) (sidf : DataFrame)
    (state : string) (lea_grp : DataFrame) :
  basicConfig (log_level args) = Ok tt →
  (state, lea_grp) ∈ groupby ST sidf →
  state_file args lea_grp [] = (Ok tt, state_layout args lea_grp)
  ∧ well_separated (state_chunks args lea_grp) = true
  ∧ file_of (main args (Some sidf) ∅).2 state = Some (state_text args lea_grp)
  ∧ (∀ lea r, groupby LEAID lea_grp = [(lea, [r])] →
       state_chunks args lea_grp
       = [Preamble (conforms_to args) (described_by args);
          LeaOpen lea (LEA_NAME r); School (NCESSCH r) (SCH_NAME r);
          LeaClose; Closing]
       ∧ filter is_sep (state_chunks args lea_grp) = []
       ∧ lea_array (state_chunks args lea_grp) = [(lea, [NCESSCH r])]).
Proof.
  intros Hlevel Hin.
  assert (lea_grp ≠ []) as Hne by (by eapply groupby_nonempty).
  split; [by apply state_file_layout|].
  split; [by rewrite state_chunks_layout, state_layout_well_separated|].
  split.
  - destruct (main_empty_file args sidf state lea_grp Hlevel Hin) as (_ & _ & ->).
    by rewrite state_chunks_layout, text_of_state_layout.
  - intros lea r Hsingle. rewrite state_chunks_layout by done.
    unfold state_layout. rewrite Hsingle. done.
Qed.

Lemma separators_only_between_elements_witness :
  let r := Row "VA" "001" "001001" "Acme LEA" "Acme Elementary" in
  (("VA", [r]) ∈ groupby ST [r])
  ∧ filter is_sep (state_chunks (defaults ∅) [r]) = []
  ∧ lea_array (state_chunks (defaults ∅) [r]) = [("001", ["001001"])].
Proof.
  intros r.
  assert (("VA", [r]) ∈ groupby ST [r]) as Hin
    by (apply (bool_decide_unpack _); vm_compute; exact I).
  split; [exact Hin|].
  assert (basicConfig (log_level (defaults ∅)) = Ok tt) as Hlevel
    by (vm_compute; reflexivity).
  destruct (separators_only_between_elements (defaults ∅) [r] "VA" [r] Hlevel Hin)
    as (_ & _ & _ & Hsingle).
  destruct (Hsingle "001" r) as (_ & Hsep & Harr); [vm_compute; reflexivity|].
  split; [exact Hsep | exact Harr].
Defined.

(** ** The preamble (C3) *)

Lemma render_Preamble (c d : string) :
  render (Preamble c d) = preamble_text c d +:+ String newline EmptyString.
Proof.
  unfold render, preamble_text, preamble_members, member, quoted.
  cbn [foldr fst snd]. rewrite PREFIX_FORMAT_pieces, !string_app_assoc.
  reflexivity.
Qed.

(** C3: every file that a run emits begins with the preamble object:
    [conformsTo] and [describedBy] with the two URLs of the arguments,
    [reportingPeriodStartDate] with the value 2021-05-10, four members
    named [comment], and then the [lea] key with its opening bracket, in
    that order. *)
Theorem files_begin_with_preamble (args : Args) (sidf : DataFrame)
    (fs : filesystem) (state text : string) :
  emitted args sidf fs state text →
  (∃ rest, text = preamble_text (conforms_to args) (described_by args) +:+ rest)
  ∧ (preamble_members (conforms_to args) (described_by args)).*1
    = ["conformsTo"; "describedBy"; "reportingPeriodStartDate";
       "comment"; "comment"; "comment"; "comment"]
  ∧ preamble_members (conforms_to args) (described_by args) !! 0
    = Some ("conformsTo", conforms_to args)
  ∧ preamble_members (conforms_to args) (described_by args) !! 1
    = Some ("describedBy", described_by args)
  ∧ preamble_members (conforms_to args) (described_by args) !! 2
    = Some ("reportingPeriodStartDate", "2021-05-10")
  ∧ occurrences (quoted "comment" +:+ ":") PREFIX_FORMAT = 4.
Proof.
  intros Hemitted.
  destruct (main_emitted args sidf fs state text Hemitted)
    as (lea_grp & _ & _ & _ & ->).
  split; [|by repeat split].
  unfold state_layout. rewrite text_of_cons, render_Preamble.
  rewrite string_app_assoc. eauto.
Qed.

Lemma files_begin_with_preamble_witness :
  let sidf := [Row "VA" "001" "001001" "Acme LEA" "Acme Elementary"] in
  let args := defaults ∅ in
  ∃ rest, state_text args sidf
          = preamble_text CONFORMANCE_URL SCHEMA_URL +:+ rest.
Proof.
  intros sidf args.
  refine (proj1 (files_begin_with_preamble args sidf ∅ "VA" (state_text args sidf) _)).
  split; [vm_compute; reflexivity|].
  left. vm_compute. discriminate.
Defined.

(** ** School objects (C4) *)

Lemma render_School (school_id sch_name : string) :
  render (School school_id sch_name) = school_object school_id sch_name.
Proof.
  unfold render, school_object, quoted. rewrite !string_app_assoc. reflexivity.
Qed.

Lemma elem_of_join_with {A} (sep : A) (l : list (list A)) (c : A) :
  c ∈ join_with sep l → c = sep ∨ ∃ e, e ∈ l ∧ c ∈ e.
Proof.
  destruct l as [|e l]; [by intros ?%not_elem_of_nil|].
  rewrite join_with_cons. intros [Hc | Hc]%elem_of_app.
  - right. exists e. split; [by left | done].
  - apply list_elem_of_bind in Hc as (e' & Hc & He').
    apply elem_of_cons in Hc as [-> | Hc]; [by left|].
    right. exists e'. split; [by right | done].
Qed.

Lemma school_of_state_layout (args : Args) (lea_grp : DataFrame) (c : chunk) :
  c ∈ state_layout args lea_grp → is_school c = true →
  ∃ r, r ∈ lea_grp ∧ c = school_chunk r.
Proof.
  unfold state_layout. intros Hc Hs.
  apply elem_of_cons in Hc as [-> | Hc]; [done|].
  apply elem_of_app in Hc as [Hc | Hc]; [|by apply list_elem_of_singleton in Hc as ->].
  apply elem_of_join_with in Hc as [-> | (e & He & Hc)]; [done|].
  apply list_elem_of_fmap in He as ([lea sch_grp] & -> & Hg).
  unfold lea_element in Hc. cbn [fst snd] in Hc.
  apply elem_of_cons in Hc as [-> | Hc]; [done|].
  apply elem_of_app in Hc as [Hc | Hc]; [|by apply list_elem_of_singleton in Hc as ->].
  apply elem_of_join_with in Hc as [-> | (e & He & Hc)]; [done|].
  apply list_elem_of_fmap in He as (r & -> & Hr).
  apply list_elem_of_singleton in Hc as ->.
  exists r. split; [|done].
  by apply (groupby_rows LEAID lea_grp lea sch_grp r Hg) in Hr as [? _].
Qed.

(** C4: in every file that a run emits, every school object is
    [SCHOOL_FORMAT] filled with the identifier and the name of a row of
    that State: its [weeklyInPersonInstruction] member is the literal
    [Not reported] whatever the row holds. *)
Theorem school_status_is_not_reported (args : Args) (sidf : DataFrame)
    (fs : filesystem) (state text : string) :
  emitted args sidf fs state text →
  ∃ lea_grp j,
    (state, lea_grp) ∈ groupby ST sidf
    ∧ state_file args lea_grp [] = (Ok tt, j)
    ∧ text = text_of j
    ∧ ∀ c, c ∈ j → is_school c = true →
        ∃ r, r ∈ sidf ∧ ST r = state
             ∧ render c
               = "  { " +:+ quoted "weeklyInPersonInstruction" +:+ ": "
                 +:+ quoted "Not reported"
                 +:+ ", " +:+ quoted "schoolID" +:+ ": " +:+ quoted (NCESSCH r)
                 +:+ ", " +:+ quoted "schoolName" +:+ ": " +:+ quoted (SCH_NAME r)
                 +:+ " }".
Proof.
  intros Hemitted.
  destruct (main_emitted args sidf fs state text Hemitted)
    as (lea_grp & Hin & Hne & Hfile & ->).
  exists lea_grp, (state_layout args lea_grp).
  split; [done|]. split; [done|]. split; [done|].
  intros c Hc Hs.
  destruct (school_of_state_layout args lea_grp c Hc Hs) as (r & Hr & ->).
  apply (groupby_rows ST sidf state lea_grp r Hin) in Hr as [Hr Hst].
  exists r. split; [done|]. split; [done|].
  apply render_School.
Qed.

Lemma school_status_is_not_reported_witness :
  let sidf := [Row "VA" "001" "001001" "Acme LEA" "Acme Elementary"] in
  let args := defaults ∅ in
  ∃ lea_grp j,
    ("VA", lea_grp) ∈ groupby ST sidf
    ∧ state_file args lea_grp [] = (Ok tt, j)
    ∧ state_text args sidf = text_of j.
Proof.
  intros sidf args.
  destruct (school_status_is_not_reported args sidf ∅ "VA" (state_text args sidf))
    as (lea_grp & j & Hin & Hj & Htext & _).
  - split; [vm_compute; reflexivity|]. left. vm_compute. discriminate.
  - exists lea_grp, j. by repeat split.
Defined.

(** ** Directories (C5) *)



(** ** Running again (C7) *)

Lemma reached_is_file_ext (fs1 fs2 : filesystem)
    (groups : list (string * DataFrame)) :
  (∀ g, g ∈ groups → is_file (fs1 !! g.1) = is_file (fs2 !! g.1)) →
  reached fs1 groups = reached fs2 groups.
Proof.
  induction groups as [|g groups IH]; intros Hagree; [done|].
  cbn [reached]. rewrite (Hagree g) by (by left).
  destruct (is_file (fs2 !! g.1)); [done|].
  f_equal. apply IH. intros g' Hg'. apply Hagree. by right.
Qed.

Lemma store_all_is_file (args : Args) (groups : list (string * DataFrame))
    (fs : filesystem) (k : string) :
  NoDup groups.*1 →
  (∀ g, g ∈ groups → is_file (fs !! g.1) = false) →
  is_file (store_all args groups fs !! k) = is_file (fs !! k).
Proof.
  intros Hnd Hfree.
  destruct (decide (k ∈ groups.*1)) as [Hk|Hk].
  - apply list_elem_of_fmap in Hk as (g & -> & Hg).
    rewrite (store_all_lookup_in args groups fs g) by done.
    by rewrite Hfree.
  - by rewrite store_all_lookup_notin.
Qed.

Lemma store_all_again (args : Args) (groups : list (string * DataFrame))
    (fs : filesystem) :
  NoDup groups.*1 →
  store_all args groups (store_all args groups fs) = store_all args groups fs.
Proof.
  intros Hnd. apply map_eq. intros k.
  destruct (decide (k ∈ groups.*1)) as [Hk|Hk].
  - apply list_elem_of_fmap in Hk as (g & -> & Hg).
    rewrite (store_all_lookup_in args groups _ g) by done.
    rewrite (store_all_lookup_in args groups fs g) by done.
    cbn [entries_of]. by rewrite insert_insert_eq.
  - by rewrite !store_all_lookup_notin.
Qed.

(** C7: a second run with the same arguments on the same input file, into
    the directory the first run left, ends as the first run did and leaves
    every entry of the directory as it was: existing directories are kept,
    every file is written again with the same text. *)
Theorem second_run_changes_nothing (args : Args) (loaded : option DataFrame)
    (fs : filesystem) :
  main args loaded (main args loaded fs).2 = main args loaded fs.
Proof.
  destruct loaded as [sidf|];
    [|unfold main; by destruct (basicConfig (log_level args))].
  destruct (basicConfig_cases (log_level args)) as [Hlevel | Hlevel];
    [|by rewrite !main_bad_level].
  rewrite (main_store_all args sidf fs) by done. cbn [snd].
  set (groups := groupby ST sidf).
  assert (NoDup (reached fs groups).*1) as Hnd
    by apply NoDup_reached, NoDup_groupby_keys.
  rewrite main_store_all by done. fold groups.
  assert (reached (store_all args (reached fs groups) fs) groups
          = reached fs groups) as Hr.
  { apply reached_is_file_ext. intros g _. apply store_all_is_file; [done|].
    apply reached_not_file. }
  unfold result_of. rewrite Hr. f_equal. by apply store_all_again.
Qed.

(** ** The two URLs (C8) *)

Lemma text_of_state_layout_urls (args : Args) (lea_grp : DataFrame) :
  text_of (state_layout args lea_grp)
  = url_frame (conforms_to args) (described_by args) (state_rest lea_grp).
Proof.
  rewrite text_of_state_layout. unfold state_text, url_frame, state_rest.
  by rewrite PREFIX_FORMAT_pieces, !string_app_assoc.
Qed.

(** C8: two runs on the same table into the same directory, with arguments
    that differ in [conforms_to] and [described_by] only, end the same way,
    and every entry of the directory is either left as it was by both, or
    is in both the directory of a State whose file holds the same text
    around the two URLs: up to the [conformsTo] value, between it and the
    [describedBy] value, and after that value. *)
Theorem urls_change_only_their_values (args1 args2 : Args) (sidf : DataFrame)
    (fs : filesystem) :
  ccd_file args1 = ccd_file args2 →
  output_dir args1 = output_dir args2 →
  log_level args1 = log_level args2 →
  (main args1 (Some sidf) fs).1 = (main args2 (Some sidf) fs).1
  ∧ (∀ name,
       ((main args1 (Some sidf) fs).2 !! name = fs !! name
        ∧ (main args2 (Some sidf) fs).2 !! name = fs !! name)
       ∨ ∃ lea_grp,
           (name, lea_grp) ∈ groupby ST sidf
           ∧ (main args1 (Some sidf) fs).2 !! name
             = Some (Dir (<[OUTPUT_FILE :=
                             url_frame (conforms_to args1) (described_by args1)
                               (state_rest lea_grp)]>
                            (entries_of (fs !! name))))
           ∧ (main args2 (Some sidf) fs).2 !! name
             = Some (Dir (<[OUTPUT_FILE :=
                             url_frame (conforms_to args2) (described_by args2)
                               (state_rest lea_grp)]>
                            (entries_of (fs !! name)))))
  ∧ PREFIX_0 = String "{" (String newline EmptyString) +:+ quoted "conformsTo"
               +:+ ": " +:+ String dquote EmptyString
  ∧ PREFIX_1 = String dquote EmptyString +:+ SEPARATOR +:+ quoted "describedBy"
               +:+ ": " +:+ String dquote EmptyString.
Proof.
  intros _ _ Hsame.
  destruct (basicConfig_cases (log_level args1)) as [Hlevel | Hlevel].
  2: { rewrite !main_bad_level by (by rewrite <- ?Hsame).
       split; [done|]. split; [by left | by split]. }
  rewrite !main_store_all by (by rewrite <- ?Hsame). cbn [fst snd].
  set (groups := groupby ST sidf).
  assert (NoDup (reached fs groups).*1) as Hnd
    by apply NoDup_reached, NoDup_groupby_keys.
  split; [done|]. split; [|by split].
  intros name.
  destruct (decide (name ∈ (reached fs groups).*1)) as [Hk|Hk].
  - right. apply list_elem_of_fmap in Hk as ([state lea_grp] & -> & Hg).
    exists lea_grp. split; [by eapply reached_subseteq|].
    rewrite !(store_all_lookup_in _ _ fs (state, lea_grp)) by done.
    cbn [fst snd]. by rewrite !text_of_state_layout_urls.
  - left. by rewrite !store_all_lookup_notin.
Qed.

Lemma urls_change_only_their_values_witness :
  let sidf := [Row "VA" "001" "001001" "Acme LEA" "Acme Elementary"] in
  let args1 := defaults ∅ in
  let args2 := setattr (setattr args1 Dconforms_to "https://example.org/c")
                 Ddescribed_by "https://example.org/s" in
  (main args1 (Some sidf) ∅).1 = (main args2 (Some sidf) ∅).1.
Proof.
  intros sidf args1 args2.
  exact (proj1 (urls_change_only_their_values args1 args2 sidf ∅
                  eq_refl eq_refl eq_refl)).
Defined.

(** ** The command line (C9) *)

Lemma setattr_ccd_file (a : Args) (d : dest) (v : string) :
  d ≠ Dccd_file → ccd_file (setattr a d v) = ccd_file a.
Proof. by destruct d. Qed.

(** Options other than [--ccdfile] leave [ccd_file] at its default. *)
Lemma parse_from_ccd_file (n : nat) (argv : list string) (extras : bool)
    (a a' : Args) :
  (length argv ≤ n)%nat →
  (∀ tok ch, tok ∈ argv → resolve (split_eq tok).1 ≠ Opt Dccd_file ch) →
  parse_from a extras argv = Parsed a' → ccd_file a' = ccd_file a.
Proof.
  revert argv extras a.
  induction n as [|n IH]; intros argv extras a Hlen Hno Hparse.
  { destruct argv; [|cbn in Hlen; lia].
    cbn in Hparse. destruct extras; [done|]. by injection Hparse as <-. }
  destruct argv as [|tok rest].
  { cbn in Hparse. destruct extras; [done|]. by injection Hparse as <-. }
  cbn [parse_from] in Hparse. cbn [length] in Hlen.
  assert (∀ tok' ch', tok' ∈ rest →
            resolve (split_eq tok').1 ≠ Opt Dccd_file ch') as Hrest
    by (intros tok' ch' Hin; apply Hno; by right).
  case_bool_decide.
  { destruct rest; [|done]. destruct extras; [done|]. by injection Hparse as <-. }
  destruct (option_like tok).
  2: { apply IH in Hparse; [done | lia | done]. }
  pose proof (Hno tok) as Htok.
  destruct (split_eq tok) as [name explicit]. cbn [fst] in Htok.
  destruct (resolve name) as [d ch| | |] eqn:Hres.
  - assert (d ≠ Dccd_file) as Hd.
    { intros ->. eapply Htok; [by left|done]. }
    destruct explicit as [v|].
    + destruct (check_value ch v); [|done].
      apply IH in Hparse; [|lia|done].
      by rewrite Hparse, setattr_ccd_file.
    + destruct rest as [|v rest']; [done|].
      destruct (option_like v); [done|].
      destruct (check_value ch v); [|done].
      apply IH in Hparse; [|cbn [length] in Hlen; lia|].
      * by rewrite Hparse, setattr_ccd_file.
      * intros tok' ch' Hin. apply Hrest. by right.
  - by destruct explicit.
  - done.
  - apply IH in Hparse; [done | lia | done].
Qed.

(** C9 as stated fails: the empty command line is parsed, and the input
    file path is the default; a path given as a positional argument is
    what the parser refuses. *)
Lemma input_path_required_counterexample :
  parse_args ∅ [] ≠ UsageError
  ∧ (∃ args, parse_args ∅ [] = Parsed args ∧ ccd_file args = "ccd_sch_sas.csv")
  ∧ parse_args ∅ ["ccdfile.csv"] = UsageError.
Proof.
  split; [done|]. split; [|done].
  eexists. split; [reflexivity|done].
Qed.

(** C9, amended: the input file path is optional on the command line.  The
    empty command line is parsed without an error, and whenever a command
    line without the [--ccdfile] option is parsed, the path is the default:
    the value of [SOS_CCDFILE] when the environment has it and
    [ccd_sch_sas.csv] otherwise.  On the empty command line the program
    goes on to read the file of that path. *)
Theorem input_path_has_default (env : gmap string string) :
  parse_args env [] = Parsed (defaults env)
  ∧ ccd_file (defaults env) = default CCD_FILE (env !! "SOS_CCDFILE")
  ∧ CCD_FILE = "ccd_sch_sas.csv"
  ∧ (∀ argv args,
       (∀ tok ch, tok ∈ argv → resolve (split_eq tok).1 ≠ Opt Dccd_file ch) →
       parse_args env argv = Parsed args →
       ccd_file args = default CCD_FILE (env !! "SOS_CCDFILE"))
  ∧ (∀ read_csv fs,
       script env [] read_csv fs
       = match main (defaults env)
                 (read_csv (default CCD_FILE (env !! "SOS_CCDFILE"))) fs with
         | (Ok _, fs') => (Done, fs')
         | (Raise e, fs') => (Uncaught e, fs')
         end).
Proof.
  split; [done|]. split; [done|]. split; [done|]. split; [|done].
  intros argv args Hno Hparse. unfold parse_args in Hparse.
  by apply (parse_from_ccd_file (length argv)) in Hparse.
Qed.

(** ** JSON (C6) *)

Section JsonRun.
Import Json.
















End JsonRun.




(** * Further properties of the program *)

(** ** Grouping keeps every row *)




(** ** Counting what a State file holds *)

Section Tally.
Variable p : chunk → bool.
Variables po ps pq : bool.
Hypothesis p_Preamble : ∀ c d, p (Preamble c d) = false.
Hypothesis p_LeaOpen : ∀ lea name, p (LeaOpen lea name) = po.
Hypothesis p_School : ∀ school_id name, p (School school_id name) = ps.
Hypothesis p_Sep : p Sep = pq.
Hypothesis p_LeaClose : p LeaClose = false.
Hypothesis p_Closing : p Closing = false.






End Tally.




(** ** The name of an LEA *)

Lemma lea_names_elements (sch_grp : DataFrame) (rest : list chunk) :
  lea_names (join_with Sep ((λ r, [school_chunk r]) <$> sch_grp) ++ rest)
  = lea_names rest.
Proof.
  destruct sch_grp as [|r suf]; [done|].
  rewrite fmap_cons, join_with_cons. cbn [app lea_names school_chunk].
  induction suf as [|r' suf IH]; [done|]. cbn. by rewrite IH.
Qed.

Lemma lea_names_layout (args : Args) (lea_grp : DataFrame) :
  lea_names (state_layout args lea_grp)
  = (λ g : string * DataFrame, (g.1, first_lea_name g.2))
    <$> groupby LEAID lea_grp.
Proof.
  unfold state_layout. cbn [lea_names].
  assert (∀ (g : string * DataFrame) rest,
            lea_names (lea_element g ++ rest)
            = (g.1, first_lea_name g.2) :: lea_names rest) as Hel.
  { intros g rest. unfold lea_element. cbn [app lea_names].
    by rewrite <- app_assoc, lea_names_elements. }
  destruct (groupby LEAID lea_grp) as [|g groups]; [done|].
  rewrite fmap_cons, join_with_cons, <- app_assoc, Hel, fmap_cons. f_equal.
  induction groups as [|g' groups IH]; [done|].
  rewrite !fmap_cons, bind_cons. cbn [app lea_names].
  by rewrite <- app_assoc, Hel, IH.
Qed.

(** X3: the name printed for an LEA is the [LEA_NAME] of the first row of
    that LEA in the table; the names in its other rows are not used. *)
Theorem lea_name_of_first_row (args : Args) (sidf : DataFrame) (state : string)
    (lea_grp : DataFrame) :
  (state, lea_grp) ∈ groupby ST sidf →
  (lea_names (state_chunks args lea_grp)).*1 = group_keys LEAID lea_grp
  ∧ ∀ lea name, (lea, name) ∈ lea_names (state_chunks args lea_grp) →
      ∃ r rest, rows_of_lea state lea sidf = r :: rest ∧ name = LEA_NAME r.
Proof.
  intros Hin.
  assert (lea_grp ≠ []) as Hne by (by eapply groupby_nonempty).
  rewrite state_chunks_layout, lea_names_layout by done.
  apply elem_of_groupby in Hin as [_ Hrows].
  split.
  { by rewrite <- list_fmap_compose, <- groupby_keys. }
  intros lea name Hln.
  apply list_elem_of_fmap in Hln as ([k g] & [= -> ->] & Hg). cbn [fst snd].
  pose proof (groupby_nonempty LEAID lea_grp k g Hg) as Hgne.
  apply elem_of_groupby in Hg as [_ ->].
  unfold rows_of_lea. rewrite <- filter_filter_rows, <- Hrows.
  destruct (filter (λ r, LEAID r = k) lea_grp) as [|r rest]; [done|].
  by exists r, rest.
Qed.

Lemma lea_name_of_first_row_witness :
  let sidf := [Row "VA" "001" "001001" "Acme LEA" "Acme Elementary";
               Row "VA" "001" "001002" "Acme Local Agency" "Acme Middle"] in
  (("VA", sidf) ∈ groupby ST sidf)
  ∧ (lea_names (state_chunks (defaults ∅) sidf)).*1 = ["001"].
Proof.
  intros sidf.
  assert (("VA", sidf) ∈ groupby ST sidf) as Hin
    by (apply (bool_decide_unpack _); vm_compute; exact I).
  split; [exact Hin|].
  exact (proj1 (lea_name_of_first_row (defaults ∅) sidf "VA" sidf Hin)).
Defined.

(** ** Order *)

Lemma StronglySorted_group_keys (level : row → string) (df : DataFrame) :
  StronglySorted String.le (group_keys level df).
Proof. unfold group_keys. apply StronglySorted_merge_sort; apply _. Qed.






(** ** What a run touches *)

Lemma main_lookup_reached (args : Args) (sidf : DataFrame) (fs : filesystem)
    (g : string * DataFrame) :
  basicConfig (log_level args) = Ok tt →
  g ∈ reached fs (groupby ST sidf) →
  (main args (Some sidf) fs).2 !! g.1
  = Some (Dir (<[OUTPUT_FILE := state_text args g.2]> (entries_of (fs !! g.1)))).
Proof.
  intros Hlevel Hg. rewrite main_store_all by done. cbn [snd].
  rewrite (store_all_lookup_in args _ fs g);
    [|by apply NoDup_reached, NoDup_groupby_keys|done].
  by rewrite text_of_state_layout.
Qed.

Lemma main_lookup_not_reached (args : Args) (sidf : DataFrame) (fs : filesystem)
    (name : string) :
  name ∉ (reached fs (groupby ST sidf)).*1 →
  (main args (Some sidf) fs).2 !! name = fs !! name.
Proof.
  intros Hname.
  destruct (basicConfig_cases (log_level args)) as [Hlevel | Hlevel];
    [|by rewrite main_bad_level].
  rewrite main_store_all by done. by apply store_all_lookup_notin.
Qed.

(** X6: a run changes nothing in the output directory but the file
    [school_operational_status.json] in the directories of State codes of
    the input.  Every other entry, every other file of a State directory,
    and every file that has the name of a State code is left as it was;
    nothing is removed. *)
Theorem run_touches_only_state_files (args : Args) (loaded : option DataFrame)
    (fs : filesystem) (name : string) :
  (main args loaded fs).2 !! name = fs !! name
  ∨ ∃ sidf lea_grp,
      loaded = Some sidf
      ∧ (name, lea_grp) ∈ groupby ST sidf
      ∧ is_file (fs !! name) = false
      ∧ (main args loaded fs).2 !! name
        = Some (Dir (<[OUTPUT_FILE := state_text args lea_grp]>
                       (entries_of (fs !! name)))).
Proof.
  destruct loaded as [sidf|];
    [|left; unfold main; by destruct (basicConfig (log_level args))].
  destruct (basicConfig_cases (log_level args)) as [Hlevel | Hlevel];
    [|left; by rewrite main_bad_level].
  destruct (decide (name ∈ (reached fs (groupby ST sidf)).*1)) as [Hin|Hnotin].
  - right. apply list_elem_of_fmap in Hin as ([state lea_grp] & -> & Hg).
    exists sidf, lea_grp. split; [done|].
    split; [by eapply reached_subseteq|].
    split; [by apply (reached_not_file fs _ _ Hg)|].
    by apply (main_lookup_reached args sidf fs (state, lea_grp)).
  - left. by apply main_lookup_not_reached.
Qed.

(** ** When a run fails on the output directory *)

Lemma reached_split (fs : filesystem) (groups : list (string * DataFrame)) :
  reached fs groups = groups
  ∨ ∃ g rest, groups = reached fs groups ++ g :: rest
              ∧ is_file (fs !! g.1) = true.
Proof.
  induction groups as [|g groups IH]; [by left|].
  cbn [reached]. destruct (is_file (fs !! g.1)) eqn:Hf.
  - right. by exists g, groups.
  - destruct IH as [-> | (g' & rest & Heq & Hg')]; [by left|].
    right. exists g', rest. split; [|done]. cbn. by rewrite <- Heq.
Qed.





Lemma sorted_split_before (ks1 ks2 : list string) (b s : string) :
  StronglySorted String.le (ks1 ++ b :: ks2) → NoDup (ks1 ++ b :: ks2) →
  s ∈ ks1 ++ b :: ks2 →
  (s ∈ ks1 ↔ String.le s b ∧ s ≠ b).
Proof.
  intros Hsorted Hnd Hs.
  apply NoDup_app in Hnd as (_ & Hdisj & Hnd2).
  apply NoDup_cons in Hnd2 as [Hb _].
  apply StronglySorted_app in Hsorted as (Hle & _ & Hs2).
  apply StronglySorted_cons in Hs2 as [Hbs _].
  split.
  - intros H1. split; [apply Hle; [done | by left]|].
    intros ->. apply (Hdisj b H1). by left.
  - intros [Hsb Hne].
    apply elem_of_app in Hs as [?|Hs]; [done|].
    apply elem_of_cons in Hs as [?|Hs]; [done|].
    exfalso. apply Hne. apply (anti_symm String.le); [done|].
    by eapply Forall_forall in Hbs.
Qed.

(** X8: a run that ends in [FileExistsError] stops at the first State code,
    in ascending order, that is the name of a file.  The States before it
    have their complete files; its own entry and the entries of the States
    after it are as they were.  Nothing is rolled back. *)
Theorem failed_run_keeps_earlier_states (args : Args) (sidf : DataFrame)
    (fs : filesystem) :
  (main args (Some sidf) fs).1 = Raise FileExistsError →
  ∃ blocked,
    blocked ∈ ST <$> sidf
    ∧ is_file (fs !! blocked) = true
    ∧ ∀ state lea_grp, (state, lea_grp) ∈ groupby ST sidf →
        (String.le state blocked ∧ state ≠ blocked →
           is_file (fs !! state) = false
           ∧ file_of (main args (Some sidf) fs).2 state
             = Some (state_text args lea_grp))
        ∧ (¬ (String.le state blocked ∧ state ≠ blocked) →
             (main args (Some sidf) fs).2 !! state = fs !! state).
Proof.
  intros Hfail.
  destruct (basicConfig_cases (log_level args)) as [Hlevel | Hlevel];
    [|by rewrite main_bad_level in Hfail].
  destruct (reached_split fs (groupby ST sidf)) as [Heq|(b & rest & Heq & Hf)].
  { rewrite main_store_all in Hfail by done. cbn [fst] in Hfail.
    unfold result_of in Hfail. by rewrite bool_decide_eq_true_2 in Hfail. }
  assert (group_keys ST sidf
          = (reached fs (groupby ST sidf)).*1 ++ b.1 :: rest.*1) as Hkeys.
  { rewrite <- groupby_keys. rewrite Heq at 1. by rewrite fmap_app, fmap_cons. }
  pose proof (StronglySorted_group_keys ST sidf) as Hsorted.
  pose proof (NoDup_group_keys ST sidf) as Hnd.
  rewrite Hkeys in Hsorted, Hnd.
  exists b.1. split.
  { apply elem_of_group_keys. rewrite Hkeys. set_solver. }
  split; [done|].
  intros state lea_grp Hg.
  assert (state ∈ (reached fs (groupby ST sidf)).*1 ++ b.1 :: rest.*1) as Hs.
  { rewrite <- Hkeys, <- groupby_keys. by apply (list_elem_of_fmap_2 fst _ (state, lea_grp)). }
  pose proof (sorted_split_before _ _ _ _ Hsorted Hnd Hs) as Hbefore.
  split.
  - intros Hlt. apply Hbefore in Hlt.
    apply list_elem_of_fmap in Hlt as ([state' lea_grp'] & Hst & Hr).
    cbn [fst] in Hst. subst state'.
    assert (lea_grp' = lea_grp) as ->.
    { apply reached_subseteq in Hr.
      apply elem_of_groupby in Hr as [_ ->]. by apply elem_of_groupby in Hg as [_ ->]. }
    split; [by apply (reached_not_file fs _ _ Hr)|].
    pose proof (main_lookup_reached args sidf fs (state, lea_grp) Hlevel Hr) as Hl.
    cbn [fst snd] in Hl. unfold file_of. rewrite Hl.
    apply lookup_insert_eq.
  - intros Hnot. apply main_lookup_not_reached. by rewrite Hbefore.
Qed.

Lemma failed_run_keeps_earlier_states_witness :
  let sidf := [Row "VA" "001" "001001" "Acme LEA" "Acme Elementary";
               Row "AL" "100" "100001" "Bama LEA" "Bama High"] in
  let fs : filesystem := {["VA" := File "notes"]} in
  ∃ blocked, blocked ∈ ST <$> sidf ∧ is_file (fs !! blocked) = true.
Proof.
  intros sidf fs.
  destruct (failed_run_keeps_earlier_states (defaults ∅) sidf fs)
    as (blocked & Hin & Hf & _).
  - vm_compute. reflexivity.
  - exists blocked. split; [exact Hin | exact Hf].
Defined.

(** ** What a run that succeeds leaves *)

(** X9: after a run that ends without an exception, the file of every
    State holds exactly the text of that State's rows, whatever the
    directory and the file held before: the file is written anew, not
    appended to. *)
Theorem successful_run_rewrites_every_file (args : Args) (sidf : DataFrame)
    (fs : filesystem) (state : string) (lea_grp : DataFrame) :
  (main args (Some sidf) fs).1 = Ok tt →
  (state, lea_grp) ∈ groupby ST sidf →
  file_of (main args (Some sidf) fs).2 state = Some (state_text args lea_grp)
  ∧ lea_grp = rows_of_state state sidf.
Proof.
  intros Hok Hg.
  destruct (basicConfig_cases (log_level args)) as [Hlevel | Hlevel];
    [|by rewrite main_bad_level in Hok].
  pose proof (main_ok_reached args sidf fs Hok) as Hreached.
  split; [|by apply elem_of_groupby in Hg as [_ ->]].
  rewrite <- Hreached in Hg.
  pose proof (main_lookup_reached args sidf fs (state, lea_grp) Hlevel Hg) as Hl.
  cbn [fst snd] in Hl. unfold file_of. rewrite Hl.
  apply lookup_insert_eq.
Qed.

Lemma successful_run_rewrites_every_file_witness :
  let sidf := [Row "VA" "001" "001001" "Acme LEA" "Acme Elementary"] in
  let fs : filesystem :=
    {["VA" := Dir {[OUTPUT_FILE := "last week's file"; "README" := "notes"]}]} in
  file_of (main (defaults ∅) (Some sidf) fs).2 "VA"
  = Some (state_text (defaults ∅) sidf).
Proof.
  intros sidf fs.
  refine (proj1 (successful_run_rewrites_every_file (defaults ∅) sidf fs "VA" sidf _ _)).
  - vm_compute. reflexivity.
  - apply (bool_decide_unpack _). vm_compute. exact I.
Defined.



(** ** The command line and the environment *)

Lemma arguments_cases (flag : string) (d : dest) (ch : option (list string)) :
  (flag, d, ch) ∈ arguments →
  (flag, d, ch) = ("--ccdfile", Dccd_file, None)
  ∨ (flag, d, ch) = ("--outputdir", Doutput_dir, None)
  ∨ (flag, d, ch) = ("--conformance", Dconforms_to, None)
  ∨ (flag, d, ch) = ("--schema", Ddescribed_by, None)
  ∨ (flag, d, ch)
    = ("--loglevel", Dlog_level,
       Some ["DEBUG"; "INFO"; "WARNING"; "ERROR"; "CRITICAL"]).
Proof.
  unfold arguments. rewrite !elem_of_cons.
  intros [?|[?|[?|[?|[?|?%not_elem_of_nil]]]]]; tauto.
Qed.

Lemma resolve_arguments (flag : string) (d : dest) (ch : option (list string)) :
  (flag, d, ch) ∈ arguments → resolve flag = Opt d ch.
Proof.
  intros Hin. apply arguments_cases in Hin
    as [[= -> -> ->]|[[= -> -> ->]|[[= -> -> ->]|[[= -> -> ->]|[= -> -> ->]]]]];
    vm_compute; reflexivity.
Qed.

(** X11: a value given on the command line takes the place of the default,
    whatever the environment holds, and leaves the other settings at their
    defaults; for [--loglevel] the value has to be one of the choices.  The
    form [--name=value] takes any value, the form [--name value] a value
    that does not look like an option. *)
Theorem command_line_overrides_default (env : gmap string string)
    (flag : string) (d : dest) (ch : option (list string)) (v : string) :
  (flag, d, ch) ∈ arguments →
  check_value ch v = true →
  parse_args env [flag +:+ "=" +:+ v] = Parsed (setattr (defaults env) d v)
  ∧ (option_like v = false →
     parse_args env [flag; v] = Parsed (setattr (defaults env) d v)).
Proof.
  intros Hin Hv. unfold parse_args.
  pose proof (resolve_arguments flag d ch Hin) as Hres.
  apply arguments_cases in Hin
    as [[= -> -> ->]|[[= -> -> ->]|[[= -> -> ->]|[[= -> -> ->]|[= -> -> ->]]]]].
  all: split;
    [ cbv [String.append]; cbn [parse_from];
      rewrite bool_decide_eq_false_2 by done; cbn; by rewrite Hres, Hv
    | intros Hopt; cbn [parse_from]; rewrite bool_decide_eq_false_2 by done;
      cbn; by rewrite Hres, Hopt, Hv ].
Qed.

Lemma command_line_overrides_default_witness :
  parse_args (<["SOS_SCHEMA" := "https://example.org/env"]> ∅)
    ["--schema=https://example.org/flag"]
  = Parsed (setattr (defaults (<["SOS_SCHEMA" := "https://example.org/env"]> ∅))
              Ddescribed_by "https://example.org/flag").
Proof.
  refine (proj1 (command_line_overrides_default _ "--schema" Ddescribed_by None
                   "https://example.org/flag" _ _)).
  - unfold arguments. rewrite !elem_of_cons. tauto.
  - reflexivity.
Defined.

Lemma resolve_from_arguments (name : string) (d : dest)
    (ch : option (list string)) :
  resolve name = Opt d ch → ∃ flag, (flag, d, ch) ∈ arguments.
Proof.
  unfold resolve. destruct (bool_decide _ || bool_decide _); [done|].
  destruct (filter (λ a, a.1.1 = name) arguments) as [|[[f d'] ch'] l] eqn:Hf.
  - destruct (String.prefix "--" name); [|done].
    destruct (filter (λ a, String.prefix name a.1.1 = true) arguments)
      as [|[[f d'] ch'] [|? ?]] eqn:Hp;
      destruct (String.prefix name "--help"); try done.
    intros [= <- <-]. exists f.
    assert ((f, d', ch') ∈ filter (λ a, String.prefix name a.1.1 = true) arguments)
      as Hin by (rewrite Hp; by left).
    by apply list_elem_of_filter in Hin as [_ ?].
  - intros [= <- <-]. exists f.
    assert ((f, d', ch') ∈ filter (λ a, a.1.1 = name) arguments)
      as Hin by (rewrite Hf; by left).
    by apply list_elem_of_filter in Hin as [_ ?].
Qed.

Lemma setattr_log_level (l0 : string) (a : Args) (flag : string) (d : dest)
    (ch : option (list string)) (v : string) :
  (flag, d, ch) ∈ arguments → check_value ch v = true →
  log_level a = l0
  ∨ log_level a ∈ ["DEBUG"; "INFO"; "WARNING"; "ERROR"; "CRITICAL"] →
  log_level (setattr a d v) = l0
  ∨ log_level (setattr a d v) ∈ ["DEBUG"; "INFO"; "WARNING"; "ERROR"; "CRITICAL"].
Proof.
  intros Hin Hv Ha. apply arguments_cases in Hin
    as [[= -> -> ->]|[[= -> -> ->]|[[= -> -> ->]|[[= -> -> ->]|[= -> -> ->]]]]];
    try done.
  right. cbn in *. by apply bool_decide_eq_true_1 in Hv.
Qed.

Lemma parse_from_log_level (l0 : string) (n : nat) (argv : list string)
    (extras : bool) (a a' : Args) :
  (length argv ≤ n)%nat →
  log_level a = l0
  ∨ log_level a ∈ ["DEBUG"; "INFO"; "WARNING"; "ERROR"; "CRITICAL"] →
  parse_from a extras argv = Parsed a' →
  log_level a' = l0
  ∨ log_level a' ∈ ["DEBUG"; "INFO"; "WARNING"; "ERROR"; "CRITICAL"].
Proof.
  revert argv extras a.
  induction n as [|n IH]; intros argv extras a Hlen Ha Hparse.
  { destruct argv; [|cbn in Hlen; lia].
    cbn in Hparse. destruct extras; [done|]. by injection Hparse as <-. }
  destruct argv as [|tok rest].
  { cbn in Hparse. destruct extras; [done|]. by injection Hparse as <-. }
  cbn [parse_from] in Hparse. cbn [length] in Hlen.
  case_bool_decide.
  { destruct rest; [|done]. destruct extras; [done|]. by injection Hparse as <-. }
  destruct (option_like tok).
  2: { apply IH in Hparse; [done | lia | done]. }
  destruct (split_eq tok) as [name explicit].
  destruct (resolve name) as [d ch| | |] eqn:Hres.
  - apply resolve_from_arguments in Hres as [flag Hflag].
    destruct explicit as [v|].
    + destruct (check_value ch v) eqn:Hv; [|done].
      apply IH in Hparse; [done | lia |]. by eapply setattr_log_level.
    + destruct rest as [|v rest']; [done|].
      destruct (option_like v); [done|].
      destruct (check_value ch v) eqn:Hv; [|done].
      apply IH in Hparse; [done | cbn [length] in Hlen; lia |].
      by eapply setattr_log_level.
  - by destruct explicit.
  - done.
  - apply IH in Hparse; [done | lia | done].
Qed.

(** X12: the log level of a parsed command line is the default or one of
    the five choices of [--loglevel]; when the default is a level that
    line 70 accepts, so is the level of every parsed command line, and
    [main] does not fail on it. *)
Theorem parsed_log_level_is_accepted (env : gmap string string)
    (argv : list string) (args : Args) :
  parse_args env argv = Parsed args →
  (log_level args = log_level (defaults env)
   ∨ log_level args ∈ ["DEBUG"; "INFO"; "WARNING"; "ERROR"; "CRITICAL"])
  ∧ (basicConfig (log_level (defaults env)) = Ok tt →
     basicConfig (log_level args) = Ok tt).
Proof.
  intros Hparse. unfold parse_args in Hparse.
  apply (parse_from_log_level (log_level (defaults env)) (length argv))
    in Hparse; [|done|by left].
  split; [done|]. intros Hdefault.
  destruct Hparse as [-> | Hin]; [done|].
  rewrite !elem_of_cons in Hin.
  destruct Hin as [->|[->|[->|[->|[->|?%not_elem_of_nil]]]]];
    done || (vm_compute; reflexivity).
Qed.

Lemma parsed_log_level_is_accepted_witness :
  basicConfig "DEBUG" = Ok tt.
Proof.
  refine (proj2 (parsed_log_level_is_accepted ∅ ["--loglevel"; "DEBUG"]
                   (setattr (defaults ∅) Dlog_level "DEBUG") _) _);
    vm_compute; reflexivity.
Defined.

Lemma parse_from_extras (n : nat) (argv : list string) (a a' : Args) :
  (length argv ≤ n)%nat → parse_from a true argv ≠ Parsed a'.
Proof.
  revert argv a. induction n as [|n IH]; intros argv a Hlen Hparse.
  { destruct argv; [done|cbn in Hlen; lia]. }
  destruct argv as [|tok rest]; [done|].
  cbn [parse_from] in Hparse. cbn [length] in Hlen.
  case_bool_decide; [by destruct rest|].
  destruct (option_like tok).
  2: { apply IH in Hparse; [done | lia]. }
  destruct (split_eq tok) as [name explicit].
  destruct (resolve name) as [d ch| | |].
  - destruct explicit as [v|].
    + destruct (check_value ch v); [|done]. apply IH in Hparse; [done | lia].
    + destruct rest as [|v rest']; [done|].
      destruct (option_like v); [done|].
      destruct (check_value ch v); [|done].
      apply IH in Hparse; [done | cbn [length] in Hlen; lia].
  - by destruct explicit.
  - done.
  - apply IH in Hparse; [done | lia].
Qed.

(** X13: the parser takes no positional argument.  A command line that
    starts with a path, as the usage line of the module docstring has it,
    or with an option the parser does not know, is never parsed: the
    program ends with the usage error or prints the help, and [main] is not
    called. *)
Theorem leading_path_is_refused (env : gmap string string) (tok : string)
    (rest : list string) (read_csv : string → option DataFrame)
    (fs : filesystem) :
  (option_like tok = false ∧ tok ≠ "--")
  ∨ (option_like tok = true ∧ resolve (split_eq tok).1 = Unknown) →
  (∀ args, parse_args env (tok :: rest) ≠ Parsed args)
  ∧ (script env (tok :: rest) read_csv fs = (Exit 2, fs)
     ∨ script env (tok :: rest) read_csv fs = (Exit 0, fs)).
Proof.
  intros Htok.
  assert (parse_args env (tok :: rest) = parse_from (defaults env) true rest)
    as Hskip.
  { unfold parse_args. cbn [parse_from].
    destruct Htok as [[Hopt Hne] | [Hopt Hres]].
    - by rewrite bool_decide_eq_false_2, Hopt.
    - rewrite bool_decide_eq_false_2 by (by intros ->).
      rewrite Hopt. destruct (split_eq tok) as [name explicit].
      cbn [fst] in Hres. by rewrite Hres. }
  assert (∀ args, parse_args env (tok :: rest) ≠ Parsed args) as Hno.
  { intros args. rewrite Hskip. by apply (parse_from_extras (length rest)). }
  split; [done|]. unfold script.
  destruct (parse_args env (tok :: rest)) as [args| |]; [|by left|by right].
  by destruct (Hno args).
Qed.

Lemma leading_path_is_refused_witness :
  script ∅ ["ccdfile.csv"; "--outputdir=out"] (λ _, Some []) ∅ = (Exit 2, ∅)
  ∨ script ∅ ["ccdfile.csv"; "--outputdir=out"] (λ _, Some []) ∅ = (Exit 0, ∅).
Proof.
  refine (proj2 (leading_path_is_refused ∅ "ccdfile.csv" ["--outputdir=out"]
                   (λ _, Some []) ∅ _)).
  left. split; [reflexivity | discriminate].
Defined.



(** ** Edges of the [with] block and of [main] *)


(** X16: the failures before the loop write nothing, and come in the order
    of the lines: a log level that line 70 refuses ends the run before the
    input file is looked at, an input file that cannot be read ends it
    before the output directory is touched. *)
Theorem early_failures_write_nothing (args : Args) (loaded : option DataFrame)
    (fs : filesystem) :
  (∀ e, basicConfig (log_level args) = Raise e →
        main args loaded fs = (Raise e, fs))
  ∧ (basicConfig (log_level args) = Ok tt → loaded = None →
     main args loaded fs = (Raise ReadError, fs))
  ∧ ((main args loaded fs).1 = Raise AttributeError
     ∨ (main args loaded fs).1 = Raise ReadError →
     (main args loaded fs).2 = fs)
  ∧ ((main args loaded fs).1 = Raise ReadError
     ↔ basicConfig (log_level args) = Ok tt ∧ loaded = None).
Proof.
  destruct loaded as [sidf|];
    destruct (basicConfig_cases (log_level args)) as [Hlevel | Hlevel].
  - rewrite main_store_all, Hlevel by done. unfold result_of. cbn [fst snd].
    split; [done|]. split; [done|].
    split; [case_bool_decide; by intros [?|?]|].
    split; [by case_bool_decide | by intros [_ ?]].
  - rewrite main_bad_level, Hlevel by done. cbn [fst snd].
    split; [by intros e [= <-]|]. split; [done|]. split; [done|].
    split; [done | by intros [? _]].
  - unfold main. rewrite Hlevel. cbn [fst snd].
    split; [done|]. split; [done|]. split; [done|]. by split.
  - unfold main. rewrite Hlevel. cbn [fst snd].
    split; [by intros e [= <-]|]. split; [done|]. split; [done|].
    split; [done | by intros [? _]].
Qed.

(** X17: a run removes nothing of an earlier run.  The file that a run
    left for a State stays as it is through any later run on a table
    without that State, whatever the arguments and the outcome of the later
    run. *)
Theorem later_run_keeps_other_states (args args' : Args) (sidf sidf' : DataFrame)
    (fs : filesystem) (state : string) (lea_grp : DataFrame) :
  (main args (Some sidf) fs).1 = Ok tt →
  (state, lea_grp) ∈ groupby ST sidf →
  state ∉ ST <$> sidf' →
  file_of (main args' (Some sidf') (main args (Some sidf) fs).2).2 state
  = Some (state_text args lea_grp).
Proof.
  intros Hok Hg Hstate.
  destruct (basicConfig_cases (log_level args)) as [Hlevel | Hlevel];
    [|by rewrite main_bad_level in Hok].
  unfold file_of. rewrite main_lookup_not_reached.
  - pose proof (main_ok_reached args sidf fs Hok) as Hreached.
    rewrite <- Hreached in Hg.
    pose proof (main_lookup_reached args sidf fs (state, lea_grp) Hlevel Hg) as Hl.
    cbn [fst snd] in Hl. rewrite Hl. apply lookup_insert_eq.
  - intros Hin. apply Hstate. apply elem_of_group_keys.
    rewrite <- groupby_keys.
    apply list_elem_of_fmap in Hin as (g & -> & Hr).
    apply list_elem_of_fmap_2. by eapply reached_subseteq.
Qed.

Lemma later_run_keeps_other_states_witness :
  let va := Row "VA" "001" "001001" "Acme LEA" "Acme Elementary" in
  let al := Row "AL" "100" "100001" "Bama LEA" "Bama High" in
  file_of (main (defaults ∅) (Some [al]) (main (defaults ∅) (Some [va]) ∅).2).2 "VA"
  = Some (state_text (defaults ∅) [va]).
Proof.
  intros va al.
  apply (later_run_keeps_other_states (defaults ∅) (defaults ∅) [va] [al] ∅ "VA" [va]).
  - vm_compute. reflexivity.
  - apply (bool_decide_unpack _). vm_compute. exact I.
  - apply (bool_decide_unpack _). vm_compute. exact I.
Defined.
